(** * Monocle [scan.py]: the captcha queue, the shared-state manager and the
      teardown sequence.

    A shallow embedding of the coordination code of [scan.py]:
    - [CustomQueue], the subclass of Python's [queue.Queue] that adds
      [full_wait];
    - the registrations on [AccountManager] and the start of the manager in
      [main];
    - [cleanup], the teardown run from [main]'s [finally];
    - the checks of the configuration that the module runs when it is
      loaded.

    Python integers are [Z], readings of [time.monotonic()] and timeouts are
    rationals [Q], the floats of the configuration are binary64 [float]s,
    strings are [string], the manager's registry (a Python dict) is a
    [gmap]. *)

From Stdlib Require Import ZArith QArith Lqa Lia Ascii String.
From Stdlib Require Import Floats.PrimFloat Floats.SpecFloat Floats.FloatOps.
From stdpp Require Import base option list gmap strings pretty.

#[local] Set Warnings "-register-all,-inexact-float".

Set Default Proof Using "Type".

(** ** 1. [queue.Queue] and [CustomQueue] *)

(** [class CustomQueue(Queue)] adds the one method [full_wait] to
    [queue.Queue] of the Python standard library and inherits the rest.
    The fields, [_qsize], [_put], [_get], [put] and [get] below are those of
    CPython's [Lib/queue.py]; [full_wait] is lines 148-167 of [scan.py]. *)

Module PyQueue.

Section Items.

(** The objects stored in the queue. *)
Variable item : Type.

(** The fields of a [queue.Queue] object that the methods below use.
    [queue] is the underlying deque, oldest item first.  The two counters
    count the calls [self.not_empty.notify()] and [self.not_full.notify()];
    they stand for the condition variables of the object. *)
Record Queue : Type := mkQueue {
  queue : list item;
  maxsize : Z;
  unfinished_tasks : Z;
  not_empty_notified : nat;
  not_full_notified : nat
}.

(** [Queue.__init__(self, maxsize=0)]. *)
Definition init (maxsize : Z) : Queue :=
  {| queue := []; maxsize := maxsize; unfinished_tasks := 0;
     not_empty_notified := 0; not_full_notified := 0 |}.

(** [_captcha_queue = CustomQueue()]. *)
Definition _captcha_queue : Queue := init 0.

(** [Queue._qsize]: [len(self.queue)]. *)
Definition _qsize (q : Queue) : Z := Z.of_nat (length (queue q)).

(** [Queue._put]: [self.queue.append(item)]. *)
Definition _put (x : item) (q : Queue) : Queue :=
  {| queue := queue q ++ [x]; maxsize := maxsize q;
     unfinished_tasks := unfinished_tasks q;
     not_empty_notified := not_empty_notified q;
     not_full_notified := not_full_notified q |}.

(** [Queue._get]: [self.queue.popleft()]. *)
Definition _get (q : Queue) : option (item * Queue) :=
  match queue q with
  | [] => None
  | x :: rest =>
      Some (x, {| queue := rest; maxsize := maxsize q;
                  unfinished_tasks := unfinished_tasks q;
                  not_empty_notified := not_empty_notified q;
                  not_full_notified := not_full_notified q |})
  end.

Definition notify_not_empty (q : Queue) : Queue :=
  {| queue := queue q; maxsize := maxsize q;
     unfinished_tasks := unfinished_tasks q;
     not_empty_notified := S (not_empty_notified q);
     not_full_notified := not_full_notified q |}.

Definition notify_not_full (q : Queue) : Queue :=
  {| queue := queue q; maxsize := maxsize q;
     unfinished_tasks := unfinished_tasks q;
     not_empty_notified := not_empty_notified q;
     not_full_notified := S (not_full_notified q) |}.

Definition task_added (q : Queue) : Queue :=
  {| queue := queue q; maxsize := maxsize q;
     unfinished_tasks := unfinished_tasks q + 1;
     not_empty_notified := not_empty_notified q;
     not_full_notified := not_full_notified q |}.

(** [Queue.put(item)] with its default arguments [block=True, timeout=None],
    as one atomic step under the queue's lock.  [None]: the call cannot
    complete in this state (it sits in [self.not_full.wait()]). *)
Definition put (x : item) (q : Queue) : option Queue :=
  if (0 <? maxsize q)%Z && (maxsize q <=? _qsize q)%Z then None
  else Some (notify_not_empty (task_added (_put x q))).

(** [Queue.get()] with its default arguments: [None] while the queue is
    empty (the call sits in [self.not_empty.wait()]). *)
Definition get (q : Queue) : option (item * Queue) :=
  if (_qsize q =? 0)%Z then None
  else match _get q with
       | Some (x, q') => Some (x, notify_not_full q')
       | None => None
       end.

(** A sequence of calls on one queue, in the order in which they take the
    lock. *)
Inductive op : Type :=
| Put (x : item)
| Get.

(** What became of each call. *)
Inductive completion : Type :=
| Enqueued (x : item)
| Dequeued (x : item)
| Pending (o : op).

Definition step (o : op) (q : Queue) : Queue * completion :=
  match o with
  | Put x => match put x q with
             | Some q' => (q', Enqueued x)
             | None => (q, Pending o)
             end
  | Get => match get q with
           | Some (x, q') => (q', Dequeued x)
           | None => (q, Pending o)
           end
  end.

Fixpoint perform (ops : list op) (q : Queue) : Queue * list completion :=
  match ops with
  | [] => (q, [])
  | o :: ops' =>
      let '(q1, c) := step o q in
      let '(q2, cs) := perform ops' q1 in
      (q2, c :: cs)
  end.

Definition is_enqueued (c : completion) : bool :=
  match c with Enqueued _ => true | _ => false end.
Definition is_dequeued (c : completion) : bool :=
  match c with Dequeued _ => true | _ => false end.
Definition is_put (o : op) : bool :=
  match o with Put _ => true | Get => false end.

Definition count {A : Type} (p : A -> bool) (l : list A) : Z :=
  Z.of_nat (length (List.filter p l)).

(** *** [CustomQueue.full_wait] *)

(** The calling thread holds the queue's lock except while it sleeps in
    [Condition.wait].  A [wake] is one return from such a sleep: the calls
    other threads completed on the queue meanwhile, and the reading of
    [time.monotonic()] once the lock is held again. *)
Record wake : Type := mkWake {
  others : list op;
  at_time : Q
}.

Record world : Type := mkWorld {
  this : Queue;
  now : Q;
  waited : nat
}.

Definition wake_up (ev : wake) (w : world) : world :=
  {| this := fst (perform (others ev) (this w));
     now := at_time ev;
     waited := S (waited w) |}.

(** [self.not_full.wait(remaining)] when no other thread touches the queue:
    the wait runs for its whole timeout. *)
Definition time_out (remaining : Q) (w : world) : world :=
  {| this := this w; now := (now w + remaining)%Q; waited := S (waited w) |}.

Inductive outcome : Type :=
| Returned (elapsed : Q)
| RaisedValueError (msg : string)
| RaisedFull
| Blocked.

(** [while self._qsize() >= maxsize: self.not_full.wait()].  [false]: the
    thread is still asleep after the last wake-up of [evs]. *)
Fixpoint wait_while_full (maxsize : Z) (evs : list wake) (w : world)
  : world * bool :=
  if (maxsize <=? _qsize (this w))%Z then
    match evs with
    | [] => (w, false)
    | ev :: evs' => wait_while_full maxsize evs' (wake_up ev w)
    end
  else (w, true).

Inductive loop_exit : Type :=
| Exited
| Expired
| Asleep.

(** The loop of the timed branch:
[[
    while self._qsize() >= maxsize:
        remaining = endtime - time.monotonic()
        if remaining <= 0.0:
            raise Full
        self.not_full.wait(remaining)
]]
    [fuel] bounds the number of iterations. *)
Fixpoint wait_until (fuel : nat) (maxsize : Z) (endtime : Q)
    (evs : list wake) (w : world) : world * loop_exit :=
  if (maxsize <=? _qsize (this w))%Z then
    let remaining := (endtime - now w)%Q in
    if Qle_bool remaining 0 then (w, Expired)
    else match fuel with
         | O => (w, Asleep)
         | S fuel' =>
             match evs with
             | [] => wait_until fuel' maxsize endtime [] (time_out remaining w)
             | ev :: evs' => wait_until fuel' maxsize endtime evs' (wake_up ev w)
             end
         end
  else (w, Exited).

Definition notified (w : world) : world :=
  {| this := notify_not_empty (this w); now := now w; waited := waited w |}.

(** [CustomQueue.full_wait(self, maxsize=0, timeout=None)], entered with the
    lock of [self.not_full] just taken in world [w]. *)
Definition full_wait (maxsize : Z) (timeout : option Q) (evs : list wake)
    (w : world) : world * outcome :=
  let starttime := now w in
  let finish (w' : world) := (notified w', Returned (now w' - starttime)%Q) in
  if (0 <? maxsize)%Z then
    match timeout with
    | None =>
        match wait_while_full maxsize evs w with
        | (w', true) => finish w'
        | (w', false) => (w', Blocked)
        end
    | Some t =>
        if negb (Qle_bool 0 t) then
          (w, RaisedValueError "'timeout' must be a non-negative number")
        else
          let endtime := (now w + t)%Q in
          match wait_until (S (length evs)) maxsize endtime evs w with
          | (w', Exited) => finish w'
          | (w', Expired) => (w', RaisedFull)
          | (w', Asleep) => (w', Blocked)
          end
    end
  else finish w.

(** The worlds the caller sees each time it holds the lock. *)
Fixpoint observations (evs : list wake) (w : world) : list world :=
  w :: match evs with
       | [] => []
       | ev :: evs' => observations evs' (wake_up ev w)
       end.

Definition occupancy (w : world) : Z := _qsize (this w).

(** The world after all the wake-ups of [evs]. *)
Definition after (evs : list wake) (w : world) : world :=
  foldl (fun w' ev => wake_up ev w') w evs.

End Items.

Arguments mkQueue {item}.
Arguments queue {item}.
Arguments maxsize {item}.
Arguments unfinished_tasks {item}.
Arguments not_empty_notified {item}.
Arguments not_full_notified {item}.
Arguments Put {item}.
Arguments Get {item}.
Arguments Enqueued {item}.
Arguments Dequeued {item}.
Arguments Pending {item}.
Arguments mkWake {item}.
Arguments others {item}.
Arguments at_time {item}.
Arguments mkWorld {item}.
Arguments this {item}.
Arguments now {item}.
Arguments waited {item}.
Arguments _qsize {item}.
Arguments put {item}.
Arguments get {item}.
Arguments step {item}.
Arguments perform {item}.
Arguments is_enqueued {item}.
Arguments is_dequeued {item}.
Arguments is_put {item}.
Arguments wake_up {item}.
Arguments time_out {item}.
Arguments wait_while_full {item}.
Arguments wait_until {item}.
Arguments notified {item}.
Arguments full_wait {item}.
Arguments observations {item}.
Arguments occupancy {item}.
Arguments after {item}.
Arguments init {item}.
Arguments _captcha_queue {item}.
Arguments _put {item}.
Arguments _get {item}.
Arguments notify_not_empty {item}.
Arguments notify_not_full {item}.
Arguments task_added {item}.

End PyQueue.

(** ** 2. Exceptions, external calls and the effect monad *)

Module Py.

(** A Python exception class: its identity, its [__name__] and the
    identities of all its proper ancestors. *)
Record pyclass : Type := mkClass {
  ident : string;
  short_name : string;
  ancestors : list string
}.

Definition issubclass (c : pyclass) (base : string) : bool :=
  bool_decide (ident c = base) || bool_decide (base ∈ ancestors c).

Inductive exn : Type :=
| Exn (c : pyclass) (msg : string) (cause : option exn).

Definition class_of (e : exn) : pyclass := let 'Exn c _ _ := e in c.
Definition message (e : exn) : string := let 'Exn _ m _ := e in m.
Definition isinstance (e : exn) (base : string) : bool :=
  issubclass (class_of e) base.

Definition cOSError : pyclass :=
  mkClass "OSError" "OSError" ["Exception"; "BaseException"].
Definition cEOFError : pyclass :=
  mkClass "EOFError" "EOFError" ["Exception"; "BaseException"].
Definition cValueError : pyclass :=
  mkClass "ValueError" "ValueError" ["Exception"; "BaseException"].
(** [concurrent.futures.TimeoutError], the class that [scan.py] imports
    under the name [TimeoutError] (line 21).  On the Python versions that
    have [asyncio.Task.all_tasks] and no separate [asyncio.TimeoutError]
    (3.5 to 3.7) it is the class that [asyncio.wait_for] raises. *)
Definition cTimeoutError : pyclass :=
  mkClass "concurrent.futures.TimeoutError" "TimeoutError"
          ["concurrent.futures.Error"; "Exception"; "BaseException"].
Definition cKeyboardInterrupt : pyclass :=
  mkClass "KeyboardInterrupt" "KeyboardInterrupt" ["BaseException"].
Definition cSystemExit : pyclass :=
  mkClass "SystemExit" "SystemExit" ["BaseException"].

(** [get_address()] returns a string (a socket path or a pipe name) or a
    [(host, port)] tuple. *)
Inductive address_t : Type :=
| AddrStr (path : string)
| AddrTuple (host : string) (port : Z).

Definition isinstance_str (a : address_t) : bool :=
  match a with AddrStr _ => true | AddrTuple _ _ => false end.

(** [str.format] of an address into a [{}] field, for the string case. *)
Definition format_address (a : address_t) : string :=
  match a with
  | AddrStr p => p
  | AddrTuple h p => "('" ++ h ++ "', " ++ pretty p ++ ")"
  end.

(** The operations of collaborators that [main] and [cleanup] call. *)
Inductive call : Type :=
| overseer_set_running (b : bool)
| get_logger (name : option string)
| LOOP_create_task_exit_progress
(* [pending = asyncio.Task.all_tasks(loop=LOOP)]: every task scheduled on the
   loop *)
| Task_all_tasks
(* [gathered = asyncio.gather(...)] of all of [pending], with
   [return_exceptions=True] *)
| asyncio_gather
(* [LOOP.run_until_complete(asyncio.wait_for(gathered, timeout))] *)
| LOOP_run_until_complete_wait_for (timeout : Z)
| log_exception (fmt arg : string)
| log_warning (fmt arg : string)
| overseer_refresh_dict
| dump_pickle (name : string)
| FORT_CACHE_pickle
| conf_CACHE_CELLS
| DB_PROC_stop
| SPAWNS_update
| DB_PROC_queue_empty
| DB_PROC_queue_qsize
| time_sleep (secs : Q)
| manager_shutdown
| SessionManager_close
| close_sessions
| LOOP_close
| parse_args
| configure_logger (filename : option string)
| log_info (msg : string)
| log_setLevel (level : string)
| AccountManager_register (typeid callable : string) (proxytype : option string)
| get_address
| AccountManager_new (address : address_t)
| manager_start
| LOOP_set_exception_handler
| Overseer_new
| overseer_start (status_bar : bool)
| LOOP_create_task_launch (bootstrap pickle : bool)
| activate_hash_server
| LOOP_add_signal_handler (sig : string)
| LOOP_run_until_complete_launcher
| launcher_cancel.

Inductive event : Type :=
| Printed (text : string)
| Called (c : call).

(** How a computation ends: with a value, with an exception, or still
    inside a loop when the fuel ran out. *)
Inductive res (A : Type) : Type :=
| Ret (a : A)
| Exc (e : exn)
| Spin.
Arguments Ret {A}.
Arguments Exc {A}.
Arguments Spin {A}.

(** A computation: what it did, in order, and how it ended. *)
Record M (A : Type) : Type := mkM {
  trace : list event;
  result : res A
}.
Arguments mkM {A}.
Arguments trace {A}.
Arguments result {A}.

Definition ret {A : Type} (a : A) : M A := mkM [] (Ret a).
Definition raise {A : Type} (e : exn) : M A := mkM [] (Exc e).
Definition spin {A : Type} : M A := mkM [] Spin.

Definition bind {A B : Type} (m : M A) (k : A -> M B) : M B :=
  match result m with
  | Ret a => let m' := k a in mkM (trace m ++ trace m') (result m')
  | Exc e => mkM (trace m) (Exc e)
  | Spin => mkM (trace m) Spin
  end.

#[global] Instance M_ret : MRet M := @ret.
#[global] Instance M_bind : MBind M := fun A B k m => bind m k.

(** [try: body except ...: handler]: [handler e] is [None] when no
    [except] clause matches [e]. *)
Definition try_except {A : Type} (body : M A) (handler : exn -> option (M A))
  : M A :=
  match result body with
  | Exc e =>
      match handler e with
      | Some h => mkM (trace body ++ trace h) (result h)
      | None => body
      end
  | _ => body
  end.

(** [try: body finally: fin].  [fin] runs however [body] ends, except when
    [body] never ends; an exception of [fin] replaces the one of [body]. *)
Definition try_finally {A : Type} (body : M A) (fin : M unit) : M A :=
  match result body with
  | Spin => body
  | r =>
      mkM (trace body ++ trace fin)
          (match result fin with
           | Ret _ => r
           | Exc e => Exc e
           | Spin => Spin
           end)
  end.

Definition print (text : string) : M unit := mkM [Printed text] (Ret tt).

End Py.

(** ** 3. [scan.py]: [main] and [cleanup] *)

Module Scan.
Import Py.

(** [parse_args()]'s namespace. *)
Record Args : Type := mkArgs {
  status_bar : bool;
  log_level : string;
  bootstrap : bool;
  pickle : bool
}.

(** Everything [main] and [cleanup] read from outside: the configuration,
    the command line, the platform, and what each collaborator does when
    called.  [raises c k] is the exception, if any, with which the [k]-th
    use of call [c] ends ([k] counts from 0 at each place of the code; the
    polls of the drain loop are numbered by iteration). *)
Record Env : Type := mkEnv {
  raises : call -> nat -> option exn;
  MAP_WORKERS : bool;
  CACHE_CELLS : bool;
  DIRECTORY : string;
  args : Args;
  platform : string;
  address : address_t;
  db_empty : nat -> bool;
  db_qsize : nat -> Z
}.

(** [os.path.join(a, b)] for a relative [b] on a POSIX system. *)
Definition path_join (a b : string) : string :=
  if bool_decide (a = "") then b
  else if bool_decide (String.get (String.length a - 1) a = Some "/"%char)
       then a ++ b
       else a ++ "/" ++ b.

(** [s * n] on strings. *)
Fixpoint str_mul (s : string) (n : nat) : string :=
  match n with
  | O => ""
  | S n' => s ++ str_mul s n'
  end.

Definition msg_same_address : string :=
  "Another instance is running with the same manager address. Stop that process or change your MANAGER_ADDRESS.".

Definition msg_same_socket (a : address_t) : string :=
  "Another instance is running with the same socket. Stop that process or: rm "
    ++ format_address a.

Section Run.

Variable env : Env.

(** A call that returns [v] unless the environment makes it raise. *)
Definition ask {A : Type} (c : call) (k : nat) (v : A) : M A :=
  mkM [Called c]
      (match raises env c k with
       | Some e => Exc e
       | None => Ret v
       end).

Definition invoke (c : call) : M unit := ask c 0 tt.

(** The [try] around the wait for the pending tasks (lines 249-255). *)
Definition await_tasks : M unit :=
  try_except
    (invoke (LOOP_run_until_complete_wait_for 40))
    (fun e =>
       if isinstance e "concurrent.futures.TimeoutError" then
         Some (print "Coroutine completion timed out, moving on.")
       else if isinstance e "Exception" then
         Some (ask (get_logger (Some "cleanup")) 1 tt ;;
               invoke (log_exception "A wild {} appeared during exit!"
                                     (short_name (class_of e))))
       else None).

(** Lines 259-263. *)
Definition dump_pickles : M unit :=
  print "Dumping pickles..." ;;
  invoke (dump_pickle "accounts") ;;
  invoke FORT_CACHE_pickle ;;
  cache_cells ← ask conf_CACHE_CELLS 0 (CACHE_CELLS env) ;
  if cache_cells : bool then invoke (dump_pickle "cells") else mret tt.

(** Lines 267-270. *)
Definition update_spawns : M unit :=
  try_except
    (invoke SPAWNS_update)
    (fun e =>
       if isinstance e "Exception" then
         Some (invoke (log_warning
                         "A wild {} appeared while updating spawns during exit!"
                         (short_name (class_of e))))
       else None).

(** The loop of lines 271-276; [k] is the number of the iteration. *)
Fixpoint drain (fuel k : nat) : M unit :=
  match fuel with
  | O => spin
  | S fuel' =>
      empty ← ask DB_PROC_queue_empty k (db_empty env k) ;
      if empty : bool then mret tt
      else
        pending ← ask DB_PROC_queue_qsize k (db_qsize env k) ;
        print (pretty (pending : Z) ++ " DB items pending     ") ;;
        ask (time_sleep (1 # 2)) k tt ;;
        drain fuel' (S k)
  end.

(** Lines 240-248: what [cleanup] does before it waits for the tasks. *)
Definition begin_exit : M unit :=
  invoke (overseer_set_running false) ;;
  print "Exiting, please wait until all tasks finish" ;;
  invoke (get_logger (Some "cleanup")) ;;
  print "Finishing tasks..." ;;
  invoke LOOP_create_task_exit_progress ;;
  invoke Task_all_tasks ;;
  invoke asyncio_gather.

(** The body of the [try] of [cleanup]. *)
Definition cleanup_body (fuel : nat) : M unit :=
  begin_exit ;;
  await_tasks ;;
  invoke overseer_refresh_dict ;;
  dump_pickles ;;
  invoke DB_PROC_stop ;;
  print "Updating spawns pickle..." ;;
  update_spawns ;;
  drain fuel 0.

(** The [finally] of [cleanup]. *)
Definition release : M unit :=
  print "Closing pipes, sessions, and event loop..." ;;
  invoke manager_shutdown ;;
  invoke SessionManager_close ;;
  invoke close_sessions ;;
  invoke LOOP_close ;;
  print "Done.".

Definition cleanup (fuel : nat) : M unit :=
  try_finally (cleanup_body fuel) release.

(** The registrations of lines 297-301. *)
Definition register_resources : M unit :=
  invoke (AccountManager_register "captcha_queue" "get_captchas" None) ;;
  invoke (AccountManager_register "extra_queue" "get_extras" None) ;;
  if MAP_WORKERS env then
    invoke (AccountManager_register "worker_dict" "get_workers"
                                    (Some "DictProxy"))
  else mret tt.

(** Lines 304-310. *)
Definition start_manager : M unit :=
  try_except
    (invoke manager_start)
    (fun e =>
       if isinstance e "OSError" || isinstance e "EOFError" then
         Some (if bool_decide (platform env = "win32")
                  || negb (isinstance_str (address env))
               then raise (Exn cOSError msg_same_address (Some e))
               else raise (Exn cOSError (msg_same_socket (address env))
                               (Some e)))
       else None).

(** Lines 296 and 302-310: up to the start of the manager. *)
Definition startup : M unit :=
  invoke parse_args ;;
  invoke (get_logger None) ;;
  (if status_bar (args env) then
     invoke (configure_logger (Some (path_join (DIRECTORY env) "scan.log"))) ;;
     invoke (log_info (str_mul "-" 37)) ;;
     invoke (log_info "Starting up!")
   else invoke (configure_logger None)) ;;
  invoke (log_setLevel (log_level (args env))) ;;
  register_resources ;;
  invoke get_address ;;
  invoke (AccountManager_new (address env)).

(** Lines 312-326: the scan itself, and the teardown in its [finally]. *)
Definition launch (fuel : nat) : M unit :=
  invoke LOOP_set_exception_handler ;;
  invoke Overseer_new ;;
  invoke (overseer_start (status_bar (args env))) ;;
  invoke (LOOP_create_task_launch (bootstrap (args env)) (pickle (args env))) ;;
  invoke activate_hash_server ;;
  (if negb (bool_decide (platform env = "win32")) then
     invoke (LOOP_add_signal_handler "SIGINT") ;;
     invoke (LOOP_add_signal_handler "SIGTERM")
   else mret tt) ;;
  try_finally
    (try_except
       (invoke LOOP_run_until_complete_launcher)
       (fun e =>
          if isinstance e "KeyboardInterrupt" || isinstance e "SystemExit"
          then Some (invoke launcher_cancel)
          else None))
    (cleanup fuel).

Definition main (fuel : nat) : M unit :=
  startup ;;
  start_manager ;;
  launch fuel.

End Run.

(** *** The manager's registry *)

(** An entry of [AccountManager._registry]: the callable that yields the
    shared object and the proxy type ([None]: [AutoProxy]). *)
Record resource : Type := mkResource {
  res_callable : string;
  res_proxytype : option string
}.

(** [BaseManager.register]: [cls._registry[typeid] = ...]. *)
Definition register (typeid : string) (r : resource)
    (reg : gmap string resource) : gmap string resource :=
  <[typeid := r]> reg.

(** The registry after the [register] calls of a trace, from registry
    [reg]. *)
Definition replay (reg : gmap string resource) (tr : list event)
  : gmap string resource :=
  foldl (fun reg ev =>
           match ev with
           | Called (AccountManager_register typeid callable proxytype) =>
               register typeid (mkResource callable proxytype) reg
           | _ => reg
           end) reg tr.

(** The registry that a run leaves behind: the [register] calls of its
    trace, replayed on the empty registry of a new manager class. *)
Definition registry_of (tr : list event) : gmap string resource :=
  replay ∅ tr.

(** What a remote process gets when it asks the server for [typeid]. *)
Inductive lookup_result : Type :=
| Proxy (r : resource)
| NotRegistered (typeid : string).

(** The server's [create]: [self.registry[typeid]], a [KeyError] sent back
    to the caller when [typeid] is missing. *)
Definition lookup_resource (typeid : string) (reg : gmap string resource)
  : lookup_result :=
  match reg !! typeid with
  | Some r => Proxy r
  | None => NotRegistered typeid
  end.


(** The drain loop comes to an end within [fuel] polls: one of the first
    [fuel] polls finds the queue of the database writer empty. *)
Definition drains_within (env : Env) (fuel : nat) : Prop :=
  exists k, k < fuel /\ db_empty env k = true.

(** The four calls of the [finally] of [cleanup] return normally. *)
Definition release_returns (env : Env) : Prop :=
  raises env manager_shutdown 0 = None
  /\ raises env SessionManager_close 0 = None
  /\ raises env close_sessions 0 = None
  /\ raises env LOOP_close 0 = None.

Definition is_register (ev : event) : bool :=
  match ev with
  | Called (AccountManager_register _ _ _) => true
  | _ => false
  end.

End Scan.


(** ** 4. [scan.py]: the checks of the configuration (lines 25-130) *)

(** [conf] is the module [monocle.sanitized]: its attributes are a map from
    names to Python values.  The values are those a config file can hold;
    a Python [float] is an IEEE 754 binary64 number, with its infinities
    and its NaN. *)

Module Config.
Import Py.

Inductive value : Type :=
| VNone
| VBool (b : bool)
| VInt (n : Z)
| VFloat (x : float)
| VStr (s : string)
| VBytes (s : string)
| VTuple (items : list value)
| VList (items : list value)
| VSet (items : list value)
| VDict (items : list (value * value)).

(** A number: an [int] ([True] is 1, [False] is 0) or a [float]. *)
Inductive num : Type :=
| NInt (n : Z)
| NFloat (x : float).

Definition number (v : value) : option num :=
  match v with
  | VBool b => Some (NInt (Z.b2z b))
  | VInt n => Some (NInt n)
  | VFloat x => Some (NFloat x)
  | _ => None
  end.

(** How the float [x] compares with the int [n].  Python compares the two
    by their exact values, without converting [n] to a float; a NaN
    compares with nothing ([None]). *)
Definition float_compare_int (x : float) (n : Z) : option comparison :=
  match Prim2SF x with
  | S754_nan => None
  | S754_infinity negative => Some (if negative then Lt else Gt)
  | S754_zero _ => Some (0 ?= n)%Z
  | S754_finite negative m e =>
      let m' := if negative then Z.neg m else Z.pos m in
      Some (if (0 <=? e)%Z then (m' * 2 ^ e ?= n)%Z
            else (m' ?= n * 2 ^ (- e))%Z)
  end.

(** [a == b] on numbers. *)
Definition num_eq (a b : num) : bool :=
  match a, b with
  | NInt x, NInt y => (x =? y)%Z
  | NFloat x, NFloat y => PrimFloat.eqb x y
  | NFloat x, NInt n | NInt n, NFloat x =>
      match float_compare_int x n with
      | Some Eq => true
      | _ => false
      end
  end.

(** [a < n] for a number [a] and an int [n]. *)
Definition num_lt_int (a : num) (n : Z) : bool :=
  match a with
  | NInt x => (x <? n)%Z
  | NFloat x =>
      match float_compare_int x n with
      | Some Lt => true
      | _ => false
      end
  end.

(** [bool(v)]. *)
Definition truthy (v : value) : bool :=
  match v with
  | VNone => false
  | VBool b => b
  | VInt n => negb (n =? 0)%Z
  | VFloat x => negb (PrimFloat.eqb x 0)
  | VStr s | VBytes s => negb (bool_decide (s = ""))
  | VTuple l | VList l | VSet l => negb (bool_decide (l = []))
  | VDict l => negb (bool_decide (l = []))
  end.

(** [a == b]: numbers by value (a NaN equals nothing, itself included),
    strings and bytes by contents, tuples and lists item by item, sets and
    dicts by their members; values of different kinds are unequal. *)
Fixpoint py_eq (a b : value) {struct a} : bool :=
  let fix seq_eq (l m : list value) {struct l} : bool :=
    match l, m with
    | [], [] => true
    | x :: l', y :: m' => py_eq x y && seq_eq l' m'
    | _, _ => false
    end in
  let fix within (l m : list value) {struct l} : bool :=
    match l with
    | [] => true
    | x :: l' => existsb (py_eq x) m && within l' m
    end in
  let fix covers (l : list value) (y : value) {struct l} : bool :=
    match l with
    | [] => false
    | x :: l' => py_eq x y || covers l' y
    end in
  let fix items_within (l m : list (value * value)) {struct l} : bool :=
    match l with
    | [] => true
    | (k, v) :: l' =>
        existsb (fun p => py_eq k (fst p) && py_eq v (snd p)) m
        && items_within l' m
    end in
  let fix items_cover (l : list (value * value)) (p : value * value)
      {struct l} : bool :=
    match l with
    | [] => false
    | (k, v) :: l' => (py_eq k (fst p) && py_eq v (snd p)) || items_cover l' p
    end in
  match a, b with
  | VNone, VNone => true
  | VStr s, VStr t => bool_decide (s = t)
  | VBytes s, VBytes t => bool_decide (s = t)
  | VTuple l, VTuple m => seq_eq l m
  | VList l, VList m => seq_eq l m
  | VSet l, VSet m => within l m && forallb (covers l) m
  | VDict l, VDict m => items_within l m && forallb (items_cover l) m
  | (VBool _ | VInt _ | VFloat _), _ =>
      match number a, number b with
      | Some x, Some y => num_eq x y
      | _, _ => false
      end
  | _, _ => false
  end.

(** [v < n] for an integer literal [n]; [None] is [TypeError]. *)
Definition py_lt (v : value) (n : Z) : option bool :=
  match number v with
  | Some x => Some (num_lt_int x n)
  | None => None
  end.

(** [v in (a, b, ...)]. *)
Definition py_in (v : value) (choices : list value) : bool :=
  existsb (py_eq v) choices.

Fixpoint hashable (v : value) : bool :=
  match v with
  | VList _ | VSet _ | VDict _ => false
  | VTuple l => forallb hashable l
  | _ => true
  end.

(** The members of [set(l)], each once, in the order of first occurrence.
    Items are the same member when they are equal: [1], [1.0] and [True]
    are one member; two NaNs, which are unequal, are two. *)
Definition distinct (l : list value) : list value :=
  foldl (fun seen x => if existsb (py_eq x) seen then seen else seen ++ [x])
        [] l.

Definition cAttributeError : pyclass :=
  mkClass "AttributeError" "AttributeError" ["Exception"; "BaseException"].
Definition cTypeError : pyclass :=
  mkClass "TypeError" "TypeError" ["Exception"; "BaseException"].
Definition cIndexError : pyclass :=
  mkClass "IndexError" "IndexError"
          ["LookupError"; "Exception"; "BaseException"].
Definition cKeyError : pyclass :=
  mkClass "KeyError" "KeyError" ["LookupError"; "Exception"; "BaseException"].
Definition cOverflowError : pyclass :=
  mkClass "OverflowError" "OverflowError"
          ["ArithmeticError"; "Exception"; "BaseException"].
Definition cMemoryError : pyclass :=
  mkClass "MemoryError" "MemoryError" ["Exception"; "BaseException"].

(** A step of the checks: it passes with a value or raises. *)
Inductive checked (A : Type) : Type :=
| Passed (a : A)
| Failed (e : exn).
Arguments Passed {A}.
Arguments Failed {A}.

#[global] Instance checked_ret : MRet checked := @Passed.
#[global] Instance checked_bind : MBind checked :=
  fun A B k c => match c with Passed a => k a | Failed e => Failed e end.

(** The messages of the errors that Python itself raises are not in
    [scan.py]; only their classes matter below. *)
Definition type_error {A : Type} : checked A :=
  Failed (Exn cTypeError "unsupported operand" None).

(** [set(l)]. *)
Definition py_set (l : list value) : checked value :=
  if forallb hashable l then Passed (VSet (distinct l)) else type_error.

(** [v[i]] for a literal index [i >= 0]. *)
Definition getitem (v : value) (i : nat) : checked value :=
  match v with
  | VTuple l | VList l =>
      match l !! i with
      | Some x => Passed x
      | None => Failed (Exn cIndexError "index out of range" None)
      end
  | VStr s =>
      match String.get i s with
      | Some c => Passed (VStr (String c ""))
      | None => Failed (Exn cIndexError "index out of range" None)
      end
  | VBytes s =>
      match String.get i s with
      | Some c => Passed (VInt (Z.of_nat (nat_of_ascii c)))
      | None => Failed (Exn cIndexError "index out of range" None)
      end
  | VDict d =>
      match List.find (fun p => py_eq (VInt (Z.of_nat i)) (fst p)) d with
      | Some p => Passed (snd p)
      | None => Failed (Exn cKeyError (pretty i) None)
      end
  | _ => type_error
  end.

(** [sys.maxsize] on a 64-bit CPython: the largest length and the largest
    repetition count of a sequence. *)
Definition ssize_max : Z := 2 ^ 63 - 1.

(** [v * n] for a sequence [v], on a 64-bit CPython that has the memory for
    the result.  The count must fit an index; an empty sequence stays
    empty and a count of zero or less gives the empty sequence; a result
    longer than [sys.maxsize] is refused with [OverflowError] for a string
    and [MemoryError] for a list or a tuple. *)
Definition repeated (v : value) (n : Z) : checked value :=
  let no_index :=
    Failed (Exn cOverflowError
              "cannot fit 'int' into an index-sized integer" None) in
  let fits := (- ssize_max - 1 <=? n)%Z && (n <=? ssize_max)%Z in
  let too_long (len : nat) :=
    (0 <? n)%Z && (ssize_max / n <? Z.of_nat len)%Z in
  match v with
  | VStr s =>
      if negb fits then no_index
      else if bool_decide (s = "") then Passed v
      else if too_long (String.length s) then
        Failed (Exn cOverflowError "repeated string is too long" None)
      else Passed (VStr (Scan.str_mul s (Z.to_nat n)))
  | VBytes s =>
      if negb fits then no_index
      else if bool_decide (s = "") then Passed v
      else if too_long (String.length s) then
        Failed (Exn cOverflowError "repeated bytes are too long" None)
      else Passed (VBytes (Scan.str_mul s (Z.to_nat n)))
  | VTuple l =>
      if negb fits then no_index
      else if bool_decide (l = []) then Passed v
      else if too_long (length l) then Failed (Exn cMemoryError "" None)
      else Passed (VTuple (concat (replicate (Z.to_nat n) l)))
  | VList l =>
      if negb fits then no_index
      else if bool_decide (l = []) then Passed v
      else if too_long (length l) then Failed (Exn cMemoryError "" None)
      else Passed (VList (concat (replicate (Z.to_nat n) l)))
  | _ => type_error
  end.

(** [float(n)] as [int * float] takes it: the double nearest to [n], ties
    to even, and [OverflowError] when [n] is too large for a double. *)
Definition float_of_int (n : Z) : checked float :=
  let x := SF2Prim (binary_normalize prec emax n 0 false) in
  if is_infinity x then
    Failed (Exn cOverflowError "int too large to convert to float" None)
  else Passed x.

(** [a * b]: the exact product of two ints, the rounded product of two
    doubles (an int is first converted), a sequence repeated. *)
Definition py_mul (a b : value) : checked value :=
  match number a, number b with
  | Some (NInt x), Some (NInt y) => Passed (VInt (x * y))
  | Some (NFloat x), Some (NFloat y) => Passed (VFloat (x * y))
  | Some (NInt n), Some (NFloat y) =>
      x ← float_of_int n ; Passed (VFloat (x * y))
  | Some (NFloat x), Some (NInt n) =>
      y ← float_of_int n ; Passed (VFloat (x * y))
  | None, Some (NInt n) => repeated a n
  | Some (NInt n), None => repeated b n
  | _, _ => type_error
  end.

(** [conf.name]. *)
Definition getattr (conf : gmap string value) (name : string)
  : checked value :=
  match conf !! name with
  | Some v => Passed v
  | None =>
      Failed (Exn cAttributeError
                ("module 'monocle.sanitized' has no attribute '" ++ name ++ "'")
                None)
  end.

Definition _required : list string :=
  ["DB_ENGINE"; "GRID"; "MAP_START"; "MAP_END"].

Definition _optional : list (string * value) :=
  [ ("PROXIES", VNone);
    ("NOTIFY_IDS", VNone);
    ("NOTIFY_RANKING", VNone);
    ("CONTROL_SOCKS", VNone);
    ("HASH_KEY", VNone);
    ("SMART_THROTTLE", VBool false);
    ("MAX_CAPTCHAS", VInt 0);
    ("ACCOUNTS", VTuple []);
    ("ENCOUNTER", VNone);
    ("NOTIFY", VBool false);
    ("AUTHKEY", VBytes "m3wtw0");
    ("SPIN_POKESTOPS", VBool false);
    ("GET_GYM_DETAILS", VBool false);
    ("SPIN_COOLDOWN", VInt 300);
    ("GYM_COOLDOWN", VInt 180);
    ("COMPLETE_TUTORIAL", VBool false);
    ("INCUBATE_EGGS", VBool false);
    ("MAP_WORKERS", VBool true);
    ("APP_SIMULATION", VBool true);
    ("ITEM_LIMITS", VNone);
    ("MAX_RETRIES", VInt 3);
    ("MORE_POINTS", VBool true);
    ("GIVE_UP_KNOWN", VInt 75);
    ("GIVE_UP_UNKNOWN", VInt 60);
    ("SKIP_SPAWN", VInt 90);
    ("LOGIN_TIMEOUT", VFloat 2.5);
    ("PLAYER_LOCALE",
     VDict [(VStr "country", VStr "US"); (VStr "language", VStr "en");
            (VStr "timezone", VStr "America/Denver")]);
    ("CAPTCHA_KEY", VNone);
    ("CAPTCHAS_ALLOWED", VInt 3);
    ("DIRECTORY", VNone);
    ("FORCED_KILL", VNone);
    ("SWAP_WORST", VInt 600);
    ("REFRESH_RATE", VFloat 0.6);
    ("SPEED_LIMIT", VFloat 19.5);
    ("COROUTINES_LIMIT", VNone);
    ("GOOD_ENOUGH", VNone);
    ("SEARCH_SLEEP", VFloat 2.5);
    ("STAT_REFRESH", VInt 5);
    ("FAVOR_CAPTCHA", VBool true) ].

(** The double quote character. *)
Definition dquote : string := String "034"%char "".

(** Lines 32-34. *)
Fixpoint check_required (names : list string) (conf : gmap string value)
  : checked unit :=
  match names with
  | [] => Passed tt
  | name :: rest =>
      match conf !! name with
      | Some _ => check_required rest conf
      | None =>
          Failed (Exn cAttributeError
                    ("Please set " ++ dquote ++ name ++ dquote ++ " in config")
                    None)
      end
  end.

(** [if not hasattr(conf, setting_name): setattr(conf, setting_name, default)]. *)
Definition set_default (conf : gmap string value) (entry : string * value)
  : gmap string value :=
  match conf !! fst entry with
  | Some _ => conf
  | None => <[fst entry := snd entry]> conf
  end.

(** Lines 77-79. *)
Definition apply_defaults (conf : gmap string value) : gmap string value :=
  foldl set_default conf _optional.

(** Lines 83-89. *)
Definition check_proxies (conf : gmap string value)
  : checked (gmap string value) :=
  proxies ← getattr conf "PROXIES" ;
  if truthy proxies then
    match proxies with
    | VTuple l | VList l =>
        s ← py_set l ; Passed (<["PROXIES" := s]> conf)
    | VStr _ => Passed (<["PROXIES" := VSet [proxies]]> conf)
    | VSet _ => Passed conf
    | _ =>
        Failed (Exn cValueError
                  "PROXIES must be either a list, set, tuple, or str." None)
    end
  else Passed conf.

(** Lines 92-94. *)
Definition check_map_bounds (conf : gmap string value)
  : checked (gmap string value) :=
  let differ :=
    Failed (Exn cValueError
              "The latitudes and longitudes of your MAP_START and MAP_END must differ."
              None) in
  map_start ← getattr conf "MAP_START" ;
  start0 ← getitem map_start 0 ;
  map_end ← getattr conf "MAP_END" ;
  end0 ← getitem map_end 0 ;
  if py_eq start0 end0 then differ
  else
    start1 ← getitem map_start 1 ;
    end1 ← getitem map_end 1 ;
    if py_eq start1 end1 then differ else Passed conf.

(** Lines 97-98. *)
Definition check_item_limits (conf : gmap string value)
  : checked (gmap string value) :=
  item_limits ← getattr conf "ITEM_LIMITS" ;
  if truthy item_limits then
    spin ← getattr conf "SPIN_POKESTOPS" ;
    if truthy spin then Passed conf
    else Passed (<["ITEM_LIMITS" := VNone]> conf)
  else Passed conf.

(** The pattern of lines 101-115:
[[
    try:
        if conf.NAME < floor:
            raise ValueError('NAME must be at least floor.')
    except (TypeError, AttributeError):
        conf.NAME = fallback
]] *)
Definition at_least (name : string) (floor : Z) (fallback : checked value)
    (conf : gmap string value) : checked (gmap string value) :=
  let use_fallback := v ← fallback ; Passed (<[name := v]> conf) in
  match conf !! name with
  | None => use_fallback
  | Some v =>
      match py_lt v floor with
      | None => use_fallback
      | Some true =>
          Failed (Exn cValueError
                    (name ++ " must be at least " ++ pretty floor ++ ".") None)
      | Some false => Passed conf
      end
  end.

(** Lines 117-118. *)
Definition check_encounter (conf : gmap string value)
  : checked (gmap string value) :=
  encounter ← getattr conf "ENCOUNTER" ;
  if py_in encounter [VNone; VStr "notifying"; VStr "all"] then Passed conf
  else
    Failed (Exn cValueError
              "Valid ENCOUNTER settings are: None, 'notifying', and 'all'"
              None).

(** Lines 120-124; [pickles_exists] is [exists(join('..', 'pickles'))]. *)
Definition set_directory (pickles_exists : bool) (conf : gmap string value)
  : checked (gmap string value) :=
  directory ← getattr conf "DIRECTORY" ;
  match directory with
  | VNone =>
      Passed (<["DIRECTORY" := VStr (if pickles_exists then ".." else "")]> conf)
  | _ => Passed conf
  end.

(** Lines 126-127. *)
Definition set_forced_kill (conf : gmap string value)
  : checked (gmap string value) :=
  forced_kill ← getattr conf "FORCED_KILL" ;
  match forced_kill with
  | VBool true =>
      Passed (<["FORCED_KILL" :=
                 VTuple [VStr "0.57.2"; VStr "0.55.0"; VStr "0.53.0";
                         VStr "0.53.1"; VStr "0.53.2"]]> conf)
  | _ => Passed conf
  end.

(** Lines 129-130. *)
Definition set_coroutines_limit (conf : gmap string value)
  : checked (gmap string value) :=
  limit ← getattr conf "COROUTINES_LIMIT" ;
  if truthy limit then Passed conf
  else
    grid ← getattr conf "GRID" ;
    columns ← getitem grid 0 ;
    grid' ← getattr conf "GRID" ;
    rows ← getitem grid' 1 ;
    product ← py_mul columns rows ;
    Passed (<["COROUTINES_LIMIT" := product]> conf).

(** Lines 25-130, on the attributes [conf] of the config module. *)
Definition sanitize (pickles_exists : bool) (conf : gmap string value)
  : checked (gmap string value) :=
  check_required _required conf ;;
  conf ← check_proxies (apply_defaults conf) ;
  conf ← check_map_bounds conf ;
  conf ← check_item_limits conf ;
  conf ← at_least "SCAN_DELAY" 10 (Passed (VInt 10)) conf ;
  conf ← at_least "SIMULTANEOUS_LOGINS" 1 (Passed (VInt 4)) conf ;
  conf ← at_least "SIMULTANEOUS_SIMULATION" 1
           (getattr conf "SIMULTANEOUS_LOGINS") conf ;
  conf ← check_encounter conf ;
  conf ← set_directory pickles_exists conf ;
  conf ← set_forced_kill conf ;
  set_coroutines_limit conf.

(** The settings that the checks may rewrite. *)
Definition rewritten : list string :=
  ["PROXIES"; "ITEM_LIMITS"; "SCAN_DELAY"; "SIMULTANEOUS_LOGINS";
   "SIMULTANEOUS_SIMULATION"; "DIRECTORY"; "FORCED_KILL"; "COROUTINES_LIMIT"].

(** The first default listed for [name]. *)
Definition default_of (name : string) : option value :=
  snd <$> List.find (fun entry => bool_decide (fst entry = name)) _optional.

(** A run of the checks that passes, step by step: the configuration
    after each step that may rewrite a setting. *)
Inductive chain (fs : bool) (conf out : gmap string value) : Prop :=
| mkChain (c1 c3 c4 c5 c6 c8 c9 : gmap string value)
    (required_ok : check_required _required conf = Passed tt)
    (proxies_ok : check_proxies (apply_defaults conf) = Passed c1)
    (bounds_ok : check_map_bounds c1 = Passed c1)
    (items_ok : check_item_limits c1 = Passed c3)
    (delay_ok : at_least "SCAN_DELAY" 10 (Passed (VInt 10)) c3 = Passed c4)
    (logins_ok :
       at_least "SIMULTANEOUS_LOGINS" 1 (Passed (VInt 4)) c4 = Passed c5)
    (simulation_ok :
       at_least "SIMULTANEOUS_SIMULATION" 1
                (getattr c5 "SIMULTANEOUS_LOGINS") c5
       = Passed c6)
    (encounter_ok : check_encounter c6 = Passed c6)
    (directory_ok : set_directory fs c6 = Passed c8)
    (forced_kill_ok : set_forced_kill c8 = Passed c9)
    (coroutines_ok : set_coroutines_limit c9 = Passed out).

End Config.

(** ** 5. Pieces of [scan.py] named for the facts below *)

Module Parts.
Import PyQueue Py Scan.

(** The items put, and the items got, in the order of the calls. *)
Definition enqueued_items {item : Type} (done : list (completion item))
  : list item :=
  flat_map (fun c => match c with Enqueued x => [x] | _ => [] end) done.

Definition dequeued_items {item : Type} (done : list (completion item))
  : list item :=
  flat_map (fun c => match c with Dequeued x => [x] | _ => [] end) done.

(** Lines 312-320 of [main]: from the exception handler to the signal
    handlers. *)
Definition prepare (env : Env) : M unit :=
  invoke env LOOP_set_exception_handler ;;
  invoke env Overseer_new ;;
  invoke env (overseer_start (status_bar (args env))) ;;
  invoke env (LOOP_create_task_launch (bootstrap (args env))
                                      (pickle (args env))) ;;
  invoke env activate_hash_server ;;
  if negb (bool_decide (platform env = "win32")) then
    invoke env (LOOP_add_signal_handler "SIGINT") ;;
    invoke env (LOOP_add_signal_handler "SIGTERM")
  else mret tt.

(** Lines 322-324 of [main]: the [try] and its [except] clause. *)
Definition run_launcher (env : Env) : M unit :=
  try_except
    (invoke env LOOP_run_until_complete_launcher)
    (fun e =>
       if isinstance e "KeyboardInterrupt" || isinstance e "SystemExit"
       then Some (invoke env launcher_cancel)
       else None).

(** What the drain loop does when it is entered at iteration [k] and finds
    the queue empty [n] polls later. *)
Fixpoint polls (env : Env) (k n : nat) : list event :=
  match n with
  | O => [Called DB_PROC_queue_empty]
  | S n' =>
      [Called DB_PROC_queue_empty; Called DB_PROC_queue_qsize;
       Printed (pretty (db_qsize env k) ++ " DB items pending     ");
       Called (time_sleep (1 # 2))]
      ++ polls env (S k) n'
  end.

(** No call of a collaborator raises. *)
Definition all_return (env : Env) : Prop :=
  forall c k, raises env c k = None.

Definition is_sleep (ev : event) : bool :=
  match ev with
  | Called (time_sleep _) => true
  | _ => false
  end.

End Parts.

(** ** 6. Concrete queues and environments *)

Module Samples.
Import PyQueue Py Scan.

(** A captcha queue holding one item, its lock taken at clock reading 10. *)
Definition one_item : world nat :=
  mkWorld (mkQueue [7] 0 1 1 0) 10 0.

(** A consumer takes the item while the caller sleeps; the caller wakes at
    clock reading 12. *)
Definition consumer_wakes : wake nat := mkWake [Get] 12.

(** A producer adds an item while the caller sleeps. *)
Definition producer_wakes : wake nat := mkWake [Put 8] 11.

(** A run on Linux with a socket path as manager address, in which every
    collaborator returns normally and the database queue is empty at the
    third poll. *)
Definition calm : Env :=
  mkEnv (fun _ _ => None) true true ""
        (mkArgs true "WARNING" false true) "linux" (AddrStr "monocle.sock")
        (fun k => Nat.leb 2 k) (fun k => 2 - Z.of_nat k)%Z.

Definition with_raises (f : call -> nat -> option exn) (env : Env) : Env :=
  mkEnv f (MAP_WORKERS env) (CACHE_CELLS env) (DIRECTORY env) (args env)
        (platform env) (address env) (db_empty env) (db_qsize env).



(** The pending tasks do not finish within the deadline. *)
Definition slow_tasks : Env :=
  with_raises
    (fun c _ => match c with
                | LOOP_run_until_complete_wait_for _ =>
                    Some (Exn cTimeoutError "" None)
                | _ => None
                end) calm.

(** Another process holds the manager's socket. *)
Definition socket_taken : Env :=
  with_raises
    (fun c _ => match c with
                | manager_start =>
                    Some (Exn cOSError "Address already in use" None)
                | _ => None
                end) calm.

(** The worker dict is not published. *)
Definition no_workers : Env :=
  mkEnv (fun _ _ => None) false true ""
        (mkArgs true "WARNING" false true) "linux" (AddrStr "monocle.sock")
        (fun k => Nat.leb 2 k) (fun k => 2 - Z.of_nat k)%Z.

End Samples.

(** ** 7. More concrete runs and configurations *)

Module Samples2.
Import PyQueue Py Scan Samples Config.


(** The operator presses Ctrl-C while the scan runs. *)
Definition interrupted : Env :=
  with_raises
    (fun c _ => match c with
                | LOOP_run_until_complete_launcher =>
                    Some (Exn cKeyboardInterrupt "" None)
                | _ => None
                end) calm.

(** Starting the manager fails for a reason other than a taken address. *)
Definition start_denied : Env :=
  with_raises
    (fun c _ => match c with
                | manager_start => Some (Exn cValueError "bad authkey" None)
                | _ => None
                end) calm.

(** The spawns cannot be updated at exit. *)
Definition spawns_fail : Env :=
  with_raises
    (fun c _ => match c with
                | SPAWNS_update => Some (Exn cOSError "database is locked" None)
                | _ => None
                end) calm.

(** The operator presses Ctrl-C again while [cleanup] waits for the tasks. *)
Definition interrupted_again : Env :=
  with_raises
    (fun c _ => match c with
                | LOOP_run_until_complete_wait_for 40 =>
                    Some (Exn cKeyboardInterrupt "" None)
                | _ => None
                end) calm.

(** The wait for the tasks fails with an error of the event loop. *)
Definition tasks_crash : Env :=
  with_raises
    (fun c _ => match c with
                | LOOP_run_until_complete_wait_for 40 =>
                    Some (Exn cValueError "loop is closed" None)
                | _ => None
                end) calm.

(** The database writer never empties its queue. *)
Definition never_drains : Env :=
  mkEnv (fun _ _ => None) true true ""
        (mkArgs true "WARNING" false true) "linux" (AddrStr "monocle.sock")
        (fun _ => false) (fun _ => 1%Z).

(** Shutting the manager down fails. *)
Definition shutdown_fails : Env :=
  with_raises
    (fun c _ => match c with
                | manager_shutdown => Some (Exn cOSError "broken pipe" None)
                | _ => None
                end) calm.

(** A config file with the required settings, a list of proxies with a
    repetition, and [SCAN_DELAY = None]. *)
Definition small_config : gmap string value :=
  list_to_map
    [("DB_ENGINE", VStr "sqlite:///db.sqlite");
     ("GRID", VTuple [VInt 4; VInt 4]);
     ("MAP_START", VTuple [VFloat 40; VFloat (-111)]);
     ("MAP_END", VTuple [VFloat 41; VFloat (-110)]);
     ("PROXIES", VList [VStr "a"; VStr "b"; VStr "a"]);
     ("ITEM_LIMITS", VDict [(VInt 1, VInt 50)]);
     ("SCAN_DELAY", VNone)].

(** The same config for a scanner that spins PokeStops. *)
Definition spinning_config : gmap string value :=
  <["SPIN_POKESTOPS" := VBool true]> small_config.

(** A grid that is not made of integers. *)
Definition fractional_grid_config : gmap string value :=
  <["GRID" := VTuple [VFloat 0.1; VInt 3]]> small_config.

(** A grid with an integer too large for a double. *)
Definition huge_grid_config : gmap string value :=
  <["GRID" := VTuple [VInt (10 ^ 400); VFloat 0.5]]> small_config.

(** What the checks make of a config (the empty map if they fail). *)
Definition checked_config (conf : gmap string value) : gmap string value :=
  match sanitize true conf with
  | Passed out => out
  | Failed _ => ∅
  end.

End Samples2.

(** ** 8. Facts about the queue *)

Module QueueFacts.
Import PyQueue Samples.

Section Facts.

Context {item : Type}.

Implicit Types (q : Queue item) (w : world item) (evs : list (wake item))
  (ops : list (op item)) (N : Z).

Lemma count_cons {A : Type} (p : A -> bool) (a : A) (l : list A) :
  count p (a :: l) = ((if p a then 1 else 0) + count p l)%Z.
Proof.
  unfold count. simpl. destruct (p a); simpl; lia.
Qed.

Lemma count_nil {A : Type} (p : A -> bool) : count p [] = 0%Z.
Proof. reflexivity. Qed.

Lemma qsize_nonneg q : (0 <= _qsize q)%Z.
Proof. unfold _qsize. lia. Qed.

(** A queue built with [maxsize <= 0] accepts every [put]. *)
Lemma put_unbounded x q :
  (maxsize q <= 0)%Z ->
  put x q = Some (notify_not_empty (task_added (_put x q))).
Proof.
  intros Hm. unfold put.
  destruct (Z.ltb_spec 0 (maxsize q)); [lia | reflexivity].
Qed.

Lemma qsize_put x q :
  _qsize (notify_not_empty (task_added (_put x q))) = (_qsize q + 1)%Z.
Proof.
  unfold _qsize. simpl. rewrite length_app. simpl. lia.
Qed.

Lemma step_maxsize o q : maxsize (fst (step o q)) = maxsize q.
Proof.
  destruct o as [x|]; simpl.
  - unfold put. destruct (_ && _); reflexivity.
  - unfold get, _get. destruct (_ =? _)%Z; [reflexivity|].
    destruct (queue q); reflexivity.
Qed.

Lemma step_tally o q :
  (maxsize q <= 0)%Z ->
  _qsize (fst (step o q))
  = (_qsize q + (if is_enqueued (snd (step o q)) then 1 else 0)
     - (if is_dequeued (snd (step o q)) then 1 else 0))%Z
  /\ is_enqueued (snd (step o q)) = is_put o.
Proof.
  intros Hm. destruct o as [x|]; simpl.
  - rewrite put_unbounded by assumption. simpl.
    rewrite qsize_put. split; [lia | reflexivity].
  - destruct q as [[|y rest] m u a b]; unfold get, _get, _qsize; simpl.
    + split; [lia | reflexivity].
    + split; [lia | reflexivity].
Qed.

Lemma perform_cons o ops q :
  perform (o :: ops) q
  = (fst (perform ops (fst (step o q))),
     snd (step o q) :: snd (perform ops (fst (step o q)))).
Proof.
  simpl. destruct (step o q) as [q1 c]. simpl.
  destruct (perform ops q1); reflexivity.
Qed.

Lemma perform_maxsize ops q : maxsize (fst (perform ops q)) = maxsize q.
Proof.
  revert q. induction ops as [|o ops IH]; intros q; [reflexivity|].
  rewrite perform_cons. simpl. rewrite IH. apply step_maxsize.
Qed.

Lemma perform_tally ops q :
  (maxsize q <= 0)%Z ->
  _qsize (fst (perform ops q))
  = (_qsize q + count is_enqueued (snd (perform ops q))
     - count is_dequeued (snd (perform ops q)))%Z
  /\ count is_enqueued (snd (perform ops q)) = count is_put ops.
Proof.
  revert q. induction ops as [|o ops IH]; intros q Hm.
  - simpl. rewrite !count_nil. split; [lia | reflexivity].
  - rewrite perform_cons. simpl. rewrite !count_cons.
    destruct (step_tally o q Hm) as [Hs Hp].
    destruct (IH (fst (step o q))) as [IH1 IH2].
    { rewrite step_maxsize. assumption. }
    rewrite IH1, Hs, IH2, Hp. split; lia.
Qed.

Lemma perform_app ops1 ops2 q :
  fst (perform (ops1 ++ ops2) q) = fst (perform ops2 (fst (perform ops1 q))).
Proof.
  revert q. induction ops1 as [|o ops1 IH]; intros q; [reflexivity|].
  change ((o :: ops1) ++ ops2) with (o :: (ops1 ++ ops2)).
  rewrite !perform_cons. simpl. apply IH.
Qed.

(** *** The two loops of [full_wait] *)


Lemma after_cons ev evs w : after (ev :: evs) w = after evs (wake_up ev w).
Proof. reflexivity. Qed.

Lemma observations_cons ev evs w :
  observations (ev :: evs) w = w :: observations evs (wake_up ev w).
Proof. reflexivity. Qed.

(** The untimed loop leaves exactly at the first observation below the
    threshold; without one the caller stays asleep. *)
Lemma wait_while_full_spec N evs w :
  match wait_while_full N evs w with
  | (w', true) =>
      (occupancy w' < N)%Z
      /\ Exists (fun o => (occupancy o < N)%Z) (observations evs w)
      /\ exists k, w' = after (take k evs) w
  | (w', false) =>
      Forall (fun o => (N <= occupancy o)%Z) (observations evs w)
      /\ w' = after evs w
  end.
Proof.
  revert w. induction evs as [|ev evs IH]; intros w; simpl wait_while_full;
    destruct (Z.leb_spec N (_qsize (this w))) as [Hge|Hlt].
  - split; [|reflexivity]. constructor; [exact Hge | constructor].
  - repeat split; [exact Hlt | left; exact Hlt | exists 0; reflexivity].
  - specialize (IH (wake_up ev w)).
    destruct (wait_while_full N evs (wake_up ev w)) as [w' [|]].
    + destruct IH as (Hocc & Hex & k & Hk). repeat split.
      * exact Hocc.
      * rewrite observations_cons. right. exact Hex.
      * exists (S k). exact Hk.
    + destruct IH as [Hall Hw]. split.
      * rewrite observations_cons. constructor; assumption.
      * exact Hw.
  - repeat split; [exact Hlt | left; exact Hlt | exists 0; reflexivity].
Qed.

Lemma Qle_bool_false (x y : Q) : Qle_bool x y = false <-> (y < x)%Q.
Proof.
  split; intros H.
  - apply Qnot_le_lt. intros Hle. apply Qle_bool_iff in Hle. congruence.
  - destruct (Qle_bool x y) eqn:E; [|reflexivity].
    apply Qle_bool_iff in E. lra.
Qed.

(** The timed loop, while the queue stays at or above the threshold: it
    ends in [raise Full], at the latest when the last wait has run for its
    whole timeout. *)
Lemma wait_until_expires N endtime post pre :
  forall fuel w,
  length (pre ++ post) < fuel ->
  Forall (fun o => (N <= occupancy o)%Z) (observations pre w) ->
  post = [] \/ (endtime <= now (after pre w))%Q ->
  exists w', wait_until fuel N endtime (pre ++ post) w = (w', Expired)
             /\ (endtime <= now w')%Q /\ (N <= occupancy w')%Z.
Proof.
  induction pre as [|ev pre IH]; intros fuel w Hfuel Hall Hend.
  - apply Forall_inv in Hall. unfold occupancy in Hall.
    destruct fuel as [|fuel]; [simpl in Hfuel; lia|].
    simpl wait_until.
    destruct (Z.leb_spec N (_qsize (this w))) as [_|Hlt]; [|lia].
    destruct (Qle_bool (endtime - now w) 0) eqn:Hrem.
    + exists w. apply Qle_bool_iff in Hrem.
      repeat split; [lra | exact Hall].
    + apply Qle_bool_false in Hrem.
      destruct Hend as [-> | Hend]; [|simpl in Hend; lra].
      simpl app.
      assert (Hlast : forall f,
                 wait_until f N endtime [] (time_out (endtime - now w) w)
                 = (time_out (endtime - now w) w, Expired)).
      { intros f. destruct f; simpl;
          (destruct (Z.leb_spec N (_qsize (this w))) as [_|Hlt]; [|lia]);
          (destruct (Qle_bool (endtime - (now w + (endtime - now w))) 0)
             eqn:Hle; [reflexivity|]);
          apply Qle_bool_false in Hle; lra. }
      rewrite Hlast. eexists; repeat split; simpl; [lra | exact Hall].
  - rewrite observations_cons in Hall.
    pose proof (Forall_inv Hall) as Hw. unfold occupancy in Hw.
    apply Forall_inv_tail in Hall.
    destruct fuel as [|fuel]; [simpl in Hfuel; lia|].
    change ((ev :: pre) ++ post) with (ev :: (pre ++ post)).
    simpl wait_until.
    destruct (Z.leb_spec N (_qsize (this w))) as [_|Hlt]; [|lia].
    destruct (Qle_bool (endtime - now w) 0) eqn:Hrem.
    + exists w. apply Qle_bool_iff in Hrem.
      repeat split; [lra | exact Hw].
    + apply IH; [simpl in Hfuel; lia | exact Hall | exact Hend].
Qed.

(** The timed loop never runs out of fuel when it is given one unit more
    than there are wake-ups. *)
Lemma wait_until_awake N endtime :
  forall evs fuel w,
  length evs < fuel -> snd (wait_until fuel N endtime evs w) <> Asleep.
Proof.
  induction evs as [|ev evs IH]; intros fuel w Hfuel;
    (destruct fuel as [|fuel]; [simpl in Hfuel; lia|]); simpl wait_until;
    (destruct (Z.leb_spec N (_qsize (this w))) as [Hge|Hlt]; [|discriminate]);
    (destruct (Qle_bool (endtime - now w) 0) eqn:Hrem; [discriminate|]).
  - apply Qle_bool_false in Hrem.
    destruct fuel; simpl;
      (destruct (Z.leb_spec N (_qsize (this w))) as [_|Hlt]; [|discriminate]);
      (destruct (Qle_bool (endtime - (now w + (endtime - now w))) 0)
         eqn:Hle; [discriminate|]);
      apply Qle_bool_false in Hle; lra.
  - apply IH. simpl in Hfuel. lia.
Qed.

(** *** What the loops leave of the queue *)

Lemma this_after evs w :
  this (after evs w) = fst (perform (concat (map others evs)) (this w)).
Proof.
  revert w. induction evs as [|ev evs IH]; intros w; [reflexivity|].
  rewrite after_cons, IH. simpl map. simpl concat.
  rewrite perform_app. reflexivity.
Qed.

Lemma wait_until_frame N endtime :
  forall fuel evs w,
  exists k, this (fst (wait_until fuel N endtime evs w))
            = this (after (take k evs) w).
Proof.
  induction fuel as [|fuel IH]; intros evs w; simpl wait_until;
    (destruct (Z.leb_spec N (_qsize (this w))); [|exists 0; reflexivity]);
    (destruct (Qle_bool (endtime - now w) 0); [exists 0; reflexivity|]).
  - exists 0. reflexivity.
  - destruct evs as [|ev evs].
    + destruct (IH [] (time_out (endtime - now w) w)) as [k Hk].
      exists 0. rewrite Hk. destruct k; reflexivity.
    + destruct (IH evs (wake_up ev w)) as [k Hk].
      exists (S k). exact Hk.
Qed.

Lemma perform_quiet evs q :
  Forall (fun ev => others ev = []) evs ->
  perform (concat (map others evs)) q = (q, []).
Proof.
  induction 1 as [|ev evs Hev _ IH]; [reflexivity|].
  simpl. rewrite Hev. exact IH.
Qed.

(** *** The claims about the queue *)

(** Claim C6.  Whatever calls of [put] and [get] are made, in whatever
    order, on the queue that [scan.py] creates, the occupancy [_qsize]
    reports afterwards is the number of completed enqueues minus the number
    of completed dequeues.  Every [put] of the sequence completes (none is
    left pending), and in the state reached the next [put] again appends its
    item at once: no capacity is checked on insertion. *)
Theorem occupancy_is_enqueues_minus_dequeues ops :
  let q := fst (perform ops _captcha_queue) in
  let done := snd (perform ops _captcha_queue) in
  _qsize q = (count is_enqueued done - count is_dequeued done)%Z
  /\ count is_enqueued done = count is_put ops
  /\ forall x, exists q',
       put x q = Some q' /\ queue q' = queue q ++ [x]
       /\ _qsize q' = (_qsize q + 1)%Z.
Proof.
  intros q done.
  assert (Hm : (maxsize (_captcha_queue (item := item)) <= 0)%Z)
    by (simpl; lia).
  destruct (perform_tally ops _captcha_queue Hm) as [Hocc Hput].
  fold q done in Hocc, Hput. split; [|split].
  - rewrite Hocc. change (_qsize _captcha_queue) with 0%Z. lia.
  - exact Hput.
  - intros x. eexists. split; [|split].
    + apply put_unbounded. subst q. rewrite perform_maxsize. exact Hm.
    + reflexivity.
    + apply qsize_put.
Qed.


(** Claim C4, as amended.  For every queue state, every threshold
    [N > 0] and every negative timeout, [full_wait] raises [ValueError]
    before any wait: the world is the one of the call, no wake-up is
    consumed. *)
Theorem full_wait_negative_timeout N t evs w :
  (0 < N)%Z -> (t < 0)%Q ->
  full_wait N (Some t) evs w
  = (w, RaisedValueError "'timeout' must be a non-negative number").
Proof.
  intros HN Ht. unfold full_wait.
  destruct (Z.ltb_spec 0 N) as [_|Hle]; [|lia].
  assert (Hneg : Qle_bool 0 t = false) by (apply Qle_bool_false; exact Ht).
  rewrite Hneg. reflexivity.
Qed.

(** Claim C5.  [full_wait] with a threshold [N > 0] and a timeout
    [t >= 0]: if, from the call on, every observation of the queue finds
    the occupancy at or above [N] until an observation is made at or after
    the deadline [now + t] (or until no other thread wakes the caller any
    more, so that its last wait runs out), the call raises [Full]: it
    neither returns nor stays blocked, and the deadline has passed when it
    raises. *)
Theorem full_wait_deadline_raises_Full N t pre post w :
  (0 < N)%Z -> (0 <= t)%Q ->
  Forall (fun o => (N <= occupancy o)%Z) (observations pre w) ->
  post = [] \/ (now w + t <= now (after pre w))%Q ->
  exists w', full_wait N (Some t) (pre ++ post) w = (w', RaisedFull)
             /\ (now w + t <= now w')%Q /\ (N <= occupancy w')%Z.
Proof.
  intros HN Ht Hall Hend. unfold full_wait.
  destruct (Z.ltb_spec 0 N) as [_|Hle]; [|lia].
  assert (Hnn : Qle_bool 0 t = true) by (apply Qle_bool_iff; exact Ht).
  rewrite Hnn. simpl negb. cbv iota.
  destruct (wait_until_expires N (now w + t) post pre
              (S (length (pre ++ post))) w) as (w' & Hrun & Hdl & Hocc);
    [lia | exact Hall | exact Hend |].
  rewrite Hrun. exists w'. repeat split; assumption.
Qed.

(** Claim C10.  Whatever the threshold, the timeout and the outcome,
    [full_wait] itself does not touch the contents of the queue: the
    contents after the call are those the calls of the other threads, made
    while the caller slept, produced from the contents before the call.
    When no other thread calls the queue meanwhile, contents and occupancy
    after the call are those before it. *)
Theorem full_wait_leaves_queue N timeout evs w :
  let w' := fst (full_wait N timeout evs w) in
  (exists k,
     queue (this w')
     = queue (fst (perform (concat (map others (take k evs))) (this w))))
  /\ (Forall (fun ev => others ev = []) evs ->
      queue (this w') = queue (this w) /\ occupancy w' = occupancy w).
Proof.
  intros w'.
  assert (Hk : exists k, queue (this w') = queue (this (after (take k evs) w))).
  { subst w'. unfold full_wait.
    destruct (0 <? N)%Z; [|exists 0; reflexivity].
    destruct timeout as [t|].
    - destruct (negb (Qle_bool 0 t)); [exists 0; reflexivity|].
      destruct (wait_until_frame N (now w + t) (S (length evs)) evs w)
        as [k Hk].
      exists k. rewrite <- Hk.
      destruct (wait_until _ _ _ _ _) as [w1 [| |]]; reflexivity.
    - pose proof (wait_while_full_spec N evs w) as Hloop.
      destruct (wait_while_full N evs w) as [w1 [|]].
      + destruct Hloop as (_ & _ & k & ->). exists k. reflexivity.
      + destruct Hloop as [_ ->]. exists (length evs).
        rewrite firstn_all. reflexivity. }
  destruct Hk as [k Hk]. rewrite this_after in Hk. split.
  - exists k. exact Hk.
  - intros Hquiet.
    assert (Hq : queue (this w') = queue (this w)).
    { rewrite Hk, perform_quiet; [reflexivity|].
      apply Forall_take. exact Hquiet. }
    split; [exact Hq|]. unfold occupancy, _qsize. rewrite Hq. reflexivity.
Qed.

End Facts.

(** *** The claims on concrete queues *)


(** Claim C4 as stated fails: with the default threshold 0 a negative
    timeout is not examined, and the call returns. *)
Lemma full_wait_negative_timeout_not_checked :
  (-1 < 0)%Q
  /\ full_wait 0 (Some (-1)%Q) [] one_item
     = (notified one_item, Returned (10 - 10))
  /\ forall msg,
       snd (full_wait 0 (Some (-1)%Q) [] one_item) <> RaisedValueError msg.
Proof.
  split; [reflexivity|]. split; [reflexivity|].
  intros msg. vm_compute. discriminate.
Qed.

Lemma full_wait_negative_timeout_witness :
  full_wait 5 (Some (-1)%Q) [consumer_wakes] one_item
  = (one_item, RaisedValueError "'timeout' must be a non-negative number").
Proof.
  apply (full_wait_negative_timeout 5 (-1) [consumer_wakes] one_item).
  - lia.
  - reflexivity.
Defined.

Lemma full_wait_deadline_raises_Full_witness :
  exists w', full_wait 1 (Some (1 # 10)) ([] ++ []) one_item = (w', RaisedFull)
             /\ (now one_item + (1 # 10) <= now w')%Q
             /\ (1 <= occupancy w')%Z.
Proof.
  apply (full_wait_deadline_raises_Full 1 (1 # 10) [] [] one_item).
  - lia.
  - vm_compute. discriminate.
  - repeat constructor. vm_compute. discriminate.
  - left. reflexivity.
Defined.

Lemma full_wait_leaves_queue_witness :
  queue (this (fst (full_wait 1 (Some (1 # 10)) [mkWake [] 11] one_item)))
  = [7]
  /\ occupancy (fst (full_wait 1 (Some (1 # 10)) [mkWake [] 11] one_item))
     = 1%Z.
Proof.
  pose proof (full_wait_leaves_queue 1 (Some (1 # 10)) [mkWake [] 11]
                one_item) as [_ H].
  apply H. repeat constructor.
Defined.

End QueueFacts.

(** ** 9. Facts about [cleanup] and [main] *)

Module ScanFacts.
Import Py Scan Samples.

(** *** The monad *)

Section Monad.

Context {A B : Type}.

Implicit Types (m : M A) (K : A -> M B).

Lemma bind_ret m K a :
  result m = Ret a ->
  m ≫= K = mkM (trace m ++ trace (K a)) (result (K a)).
Proof. unfold mbind, M_bind, bind. intros ->. reflexivity. Qed.

Lemma bind_exc m K e :
  result m = Exc e -> m ≫= K = mkM (trace m) (Exc e).
Proof. unfold mbind, M_bind, bind. intros ->. reflexivity. Qed.

Lemma bind_returns m K b :
  result (m ≫= K) = Ret b ->
  exists a, result m = Ret a /\ result (K a) = Ret b.
Proof.
  unfold mbind, M_bind, bind. destruct (result m) as [a|e|]; simpl;
    intros H; try discriminate. exists a. split; [reflexivity | exact H].
Qed.

Lemma trace_bind_prefix m K : exists rest, trace (m ≫= K) = trace m ++ rest.
Proof.
  unfold mbind, M_bind, bind. destruct (result m) as [a|e|]; simpl.
  - eexists. reflexivity.
  - exists []. symmetry. apply app_nil_r.
  - exists []. symmetry. apply app_nil_r.
Qed.

Lemma no_spin_bind m K :
  result m <> Spin -> (forall a, result (K a) <> Spin) ->
  result (m ≫= K) <> Spin.
Proof.
  unfold mbind, M_bind, bind. intros Hm HK.
  destruct (result m) as [a|e|]; simpl; [apply HK | discriminate | congruence].
Qed.

Lemma Forall_trace_bind (P : event -> Prop) m K :
  Forall P (trace m) -> (forall a, Forall P (trace (K a))) ->
  Forall P (trace (m ≫= K)).
Proof.
  unfold mbind, M_bind, bind. intros Hm HK.
  destruct (result m) as [a|e|]; simpl; [|exact Hm|exact Hm].
  apply Forall_app. split; [exact Hm | apply HK].
Qed.

End Monad.

Section Handlers.

Context {A : Type}.

Implicit Types (body : M A) (handler : exn -> option (M A)) (fin : M unit).

Lemma no_spin_try_except body handler :
  result body <> Spin ->
  (forall e h, handler e = Some h -> result h <> Spin) ->
  result (try_except body handler) <> Spin.
Proof.
  unfold try_except. intros Hb Hh.
  destruct (result body) as [a|e|] eqn:Hr; try (rewrite Hr; discriminate).
  - destruct (handler e) as [h|] eqn:He; simpl.
    + exact (Hh e h He).
    + rewrite Hr. discriminate.
  - congruence.
Qed.

Lemma Forall_trace_try_except (P : event -> Prop) body handler :
  Forall P (trace body) ->
  (forall e h, handler e = Some h -> Forall P (trace h)) ->
  Forall P (trace (try_except body handler)).
Proof.
  unfold try_except. intros Hb Hh.
  destruct (result body) as [a|e|]; try exact Hb.
  destruct (handler e) as [h|] eqn:He; simpl; [|exact Hb].
  apply Forall_app. split; [exact Hb | exact (Hh e h He)].
Qed.

Lemma try_finally_trace body fin :
  result body <> Spin ->
  trace (try_finally body fin) = trace body ++ trace fin.
Proof.
  unfold try_finally. destruct (result body); [reflexivity..|congruence].
Qed.

Lemma try_finally_result body fin :
  result body <> Spin -> result fin = Ret tt ->
  result (try_finally body fin) = result body.
Proof.
  unfold try_finally. intros Hb Hf.
  destruct (result body); simpl; rewrite ?Hf; congruence.
Qed.

Lemma try_finally_prefix body fin :
  exists rest, trace (try_finally body fin) = trace body ++ rest.
Proof.
  unfold try_finally. destruct (result body); simpl;
    try (eexists; reflexivity).
  exists []. symmetry. apply app_nil_r.
Qed.

Lemma Forall_trace_try_finally (P : event -> Prop) body fin :
  Forall P (trace body) -> Forall P (trace fin) ->
  Forall P (trace (try_finally body fin)).
Proof.
  unfold try_finally. intros Hb Hf.
  destruct (result body); simpl; try exact Hb;
    apply Forall_app; split; assumption.
Qed.

End Handlers.

Section Calls.

Variable env : Env.

Lemma result_bind_ask {A B : Type} c k (v : A) (K : A -> M B) :
  result (ask env c k v ≫= K)
  = match raises env c k with
    | Some e => Exc e
    | None => result (K v)
    end.
Proof.
  unfold mbind, M_bind, bind, ask. simpl.
  destruct (raises env c k); reflexivity.
Qed.

Lemma trace_bind_ask {A B : Type} c k (v : A) (K : A -> M B) :
  trace (ask env c k v ≫= K)
  = Called c :: match raises env c k with
                | Some e => []
                | None => trace (K v)
                end.
Proof.
  unfold mbind, M_bind, bind, ask. simpl.
  destruct (raises env c k); reflexivity.
Qed.

Lemma result_bind_print {B : Type} s (K : unit -> M B) :
  result (print s ≫= K) = result (K tt).
Proof. reflexivity. Qed.


Lemma no_spin_ask {A : Type} c k (v : A) : result (ask env c k v) <> Spin.
Proof. unfold ask. simpl. destruct (raises env c k); discriminate. Qed.

Lemma Forall_trace_ask {A : Type} (P : event -> Prop) c k (v : A) :
  P (Called c) -> Forall P (trace (ask env c k v)).
Proof. intros H. repeat constructor. exact H. Qed.

Lemma Forall_trace_print (P : event -> Prop) s :
  P (Printed s) -> Forall P (trace (print s)).
Proof. intros H. repeat constructor. exact H. Qed.

End Calls.

(** Proves that a straight-line piece of [scan.py] does not spin. *)
Ltac no_spin :=
  repeat first
    [ apply no_spin_ask
    | discriminate
    | apply no_spin_bind; [|intros ?]
    | apply no_spin_try_except;
      [|let e := fresh "e" in let h := fresh "h" in let H := fresh "H" in
        intros e h H;
        repeat match type of H with
               | (if ?b then _ else _) = Some _ => destruct b
               end;
        try discriminate H; injection H as <-]
    | match goal with
      | |- result (if ?b then _ else _) <> Spin => destruct b
      end ].

(** Proves that every event of a piece of [scan.py] satisfies a property
    that holds of its calls and prints. *)
Ltac all_events tac :=
  repeat first
    [ exact (List.Forall_nil _)
    | apply Forall_trace_ask; tac
    | apply Forall_trace_print; tac
    | apply Forall_trace_bind; [|intros ?]
    | apply Forall_trace_try_finally
    | apply Forall_trace_try_except;
      [|let e := fresh "e" in let h := fresh "h" in let H := fresh "H" in
        intros e h H;
        repeat match type of H with
               | (if ?b then _ else _) = Some _ => destruct b
               end;
        try discriminate H; injection H as <-]
    | match goal with
      | |- Forall _ (trace (if ?b then _ else _)) => destruct b
      end ].

Section Teardown.

Variable env : Env.

(** *** The drain loop *)

Lemma drain_S fuel k :
  drain env (S fuel) k
  = (empty ← ask env DB_PROC_queue_empty k (db_empty env k) ;
     if empty : bool then mret tt
     else
       pending ← ask env DB_PROC_queue_qsize k (db_qsize env k) ;
       print (pretty (pending : Z) ++ " DB items pending     ") ;;
       ask env (time_sleep (1 # 2)) k tt ;;
       drain env fuel (S k)).
Proof. reflexivity. Qed.

Lemma drain_no_spin :
  forall fuel k,
  (exists j, k <= j < k + fuel /\ db_empty env j = true) ->
  result (drain env fuel k) <> Spin.
Proof.
  induction fuel as [|fuel IH]; intros k (j & Hj & Hempty); [lia|].
  rewrite drain_S, result_bind_ask.
  destruct (raises env DB_PROC_queue_empty k); [discriminate|].
  destruct (db_empty env k) eqn:Hk; [discriminate|].
  rewrite result_bind_ask.
  destruct (raises env DB_PROC_queue_qsize k); [discriminate|].
  rewrite result_bind_print, result_bind_ask.
  destruct (raises env (time_sleep (1 # 2)) k); [discriminate|].
  apply IH. exists j. split; [|exact Hempty].
  assert (j <> k) by congruence. lia.
Qed.

Lemma begin_exit_no_spin : result (begin_exit env) <> Spin.
Proof. unfold begin_exit, invoke, print. no_spin. Qed.

Lemma await_tasks_no_spin : result (await_tasks env) <> Spin.
Proof. unfold await_tasks, invoke, print. no_spin. Qed.

Lemma dump_pickles_no_spin : result (dump_pickles env) <> Spin.
Proof. unfold dump_pickles, invoke, print. no_spin. Qed.

Lemma update_spawns_no_spin : result (update_spawns env) <> Spin.
Proof. unfold update_spawns, invoke, print. no_spin. Qed.

Lemma cleanup_body_no_spin fuel :
  drains_within env fuel -> result (cleanup_body env fuel) <> Spin.
Proof.
  intros (k & Hk & Hempty). unfold cleanup_body.
  apply no_spin_bind; [apply begin_exit_no_spin | intros _].
  apply no_spin_bind; [apply await_tasks_no_spin | intros _].
  apply no_spin_bind; [apply no_spin_ask | intros _].
  apply no_spin_bind; [apply dump_pickles_no_spin | intros _].
  apply no_spin_bind; [apply no_spin_ask | intros _].
  apply no_spin_bind; [discriminate | intros _].
  apply no_spin_bind; [apply update_spawns_no_spin | intros _].
  apply drain_no_spin. exists k. split; [lia | exact Hempty].
Qed.

(** *** The [finally] of [cleanup] *)

Lemma release_trace :
  release_returns env ->
  release env
  = mkM [Printed "Closing pipes, sessions, and event loop...";
         Called manager_shutdown; Called SessionManager_close;
         Called close_sessions; Called LOOP_close; Printed "Done."]
        (Ret tt).
Proof.
  intros (H1 & H2 & H3 & H4).
  unfold release, invoke, ask, print, mbind, M_bind, bind. simpl.
  rewrite H1. simpl. rewrite H2. simpl. rewrite H3. simpl. rewrite H4.
  reflexivity.
Qed.





(** *** The pickles *)




(** *** The wait for the pending tasks *)

Lemma drain_never_waits fuel k :
  Forall (fun ev => forall t, ev = Called (LOOP_run_until_complete_wait_for t)
                              -> t = 40%Z)
         (trace (drain env fuel k)).
Proof.
  revert k. induction fuel as [|fuel IH]; intros k; [constructor|].
  cbn [drain]. unfold print.
  all_events ltac:(intros ? [=]). apply IH.
Qed.

(** Claim C9.  Before it waits, [cleanup] schedules the exit progress,
    enumerates every task scheduled on the loop with
    [asyncio.Task.all_tasks(loop=LOOP)] and gathers them all; the wait that
    follows is for the gathered tasks, with the fixed deadline 40, and
    [cleanup] makes no wait with another deadline.  When that wait ends in
    [TimeoutError], the error is not raised further: the wait step prints
    that completion timed out and returns, and the next call of [cleanup]
    is [overseer.refresh_dict()]. *)
Theorem await_timeout_moves_on fuel e :
  raises env (LOOP_run_until_complete_wait_for 40) 0 = Some e ->
  isinstance e "concurrent.futures.TimeoutError" = true ->
  await_tasks env
  = mkM [Called (LOOP_run_until_complete_wait_for 40);
         Printed "Coroutine completion timed out, moving on."]
        (Ret tt)
  /\ ((forall c, In c [overseer_set_running false;
                       get_logger (Some "cleanup");
                       LOOP_create_task_exit_progress;
                       Task_all_tasks;
                       asyncio_gather] ->
                 raises env c 0 = None) ->
      exists rest,
        trace (cleanup env fuel)
        = [Called (overseer_set_running false);
           Printed "Exiting, please wait until all tasks finish";
           Called (get_logger (Some "cleanup"));
           Printed "Finishing tasks...";
           Called LOOP_create_task_exit_progress;
           Called Task_all_tasks;
           Called asyncio_gather;
           Called (LOOP_run_until_complete_wait_for 40);
           Printed "Coroutine completion timed out, moving on.";
           Called overseer_refresh_dict]
          ++ rest)
  /\ (forall t,
        In (Called (LOOP_run_until_complete_wait_for t))
           (trace (cleanup env fuel)) ->
        t = 40%Z).
Proof.
  intros Hraise Hcls.
  assert (Hawait : await_tasks env
                   = mkM [Called (LOOP_run_until_complete_wait_for 40);
                          Printed "Coroutine completion timed out, moving on."]
                         (Ret tt)).
  { unfold await_tasks, try_except, invoke, ask. simpl.
    rewrite Hraise, Hcls. reflexivity. }
  split; [exact Hawait|]. split.
  - intros Hcalls.
    assert (Hbegin : begin_exit env
                     = mkM [Called (overseer_set_running false);
                            Printed "Exiting, please wait until all tasks finish";
                            Called (get_logger (Some "cleanup"));
                            Printed "Finishing tasks...";
                            Called LOOP_create_task_exit_progress;
                            Called Task_all_tasks;
                            Called asyncio_gather]
                           (Ret tt)).
    { unfold begin_exit, invoke, ask, print, mbind, M_bind, bind.
      cbn [result trace].
      rewrite (Hcalls (overseer_set_running false)) by (simpl; auto).
      cbn [result trace].
      rewrite (Hcalls (get_logger (Some "cleanup"))) by (simpl; auto).
      cbn [result trace].
      rewrite (Hcalls LOOP_create_task_exit_progress) by (simpl; auto).
      cbn [result trace].
      rewrite (Hcalls Task_all_tasks) by (simpl; auto).
      cbn [result trace].
      rewrite (Hcalls asyncio_gather) by (simpl; auto 6).
      reflexivity. }
    unfold cleanup.
    destruct (try_finally_prefix (cleanup_body env fuel) (release env))
      as [rest1 ->].
    unfold cleanup_body. rewrite Hbegin.
    match goal with
    | |- context [mkM ?t (Ret tt) ≫= ?K] =>
        rewrite (bind_ret (mkM t (Ret tt)) K tt eq_refl)
    end.
    cbn [trace]. rewrite Hawait.
    match goal with
    | |- context [mkM ?t (Ret tt) ≫= ?K] =>
        rewrite (bind_ret (mkM t (Ret tt)) K tt eq_refl)
    end.
    cbn [trace]. eexists. unfold invoke.
    rewrite (trace_bind_ask env overseer_refresh_dict).
    rewrite <- !app_assoc. reflexivity.
  - intros t Hin.
    assert (Hall : Forall (fun ev => forall t,
                               ev = Called (LOOP_run_until_complete_wait_for t)
                               -> t = 40%Z)
                          (trace (cleanup env fuel))).
    { unfold cleanup, cleanup_body, release, begin_exit, await_tasks,
        dump_pickles, update_spawns, invoke.
      all_events ltac:(first [intros ? [= <-]; reflexivity | intros ? [=]]).
      apply drain_never_waits. }
    rewrite List.Forall_forall in Hall. exact (Hall _ Hin t eq_refl).
Qed.

End Teardown.

Section Startup.

Variable env : Env.

(** *** More of the monad *)

Lemma bind_assoc {A B C : Type} (m : M A) (f : A -> M B) (g : B -> M C) :
  (m ≫= f) ≫= g = m ≫= (fun x => f x ≫= g).
Proof.
  unfold mbind, M_bind, bind.
  destruct (result m) as [a|e|]; simpl; try reflexivity.
  destruct (result (f a)) as [b|e|]; simpl; try reflexivity.
  rewrite app_assoc. reflexivity.
Qed.

Lemma bind_mret {A B : Type} (a : A) (K : A -> M B) : mret a ≫= K = K a.
Proof.
  unfold mbind, M_bind, bind, mret, M_ret, ret. simpl.
  destruct (K a); reflexivity.
Qed.

Lemma trace_bind_stop {A B : Type} (m : M A) (K : A -> M B) :
  (forall a, result m <> Ret a) -> trace (m ≫= K) = trace m.
Proof.
  unfold mbind, M_bind, bind. intros H.
  destruct (result m) as [a|e|]; [destruct (H a eq_refl) | reflexivity..].
Qed.

(** *** The registry *)

Lemma replay_quiet tr reg :
  Forall (fun ev => is_register ev = false) tr -> replay reg tr = reg.
Proof.
  intros H. revert reg. induction H as [|ev tr Hev _ IH]; intros reg.
  - reflexivity.
  - simpl. destruct ev as [s|c]; [apply IH|].
    destruct c; try apply IH. discriminate Hev.
Qed.

Lemma registry_of_app_quiet t1 t2 :
  Forall (fun ev => is_register ev = false) t2 ->
  registry_of (t1 ++ t2) = registry_of t1.
Proof.
  intros H. unfold registry_of, replay. rewrite foldl_app.
  apply (replay_quiet t2 _ H).
Qed.

Lemma replay_cons_quiet ev tr reg :
  is_register ev = false -> replay reg (ev :: tr) = replay reg tr.
Proof.
  intros Hev. destruct ev as [s|c]; [reflexivity|].
  destruct c; try reflexivity. discriminate Hev.
Qed.

Lemma replay_cons_register typeid callable proxytype tr reg :
  replay reg (Called (AccountManager_register typeid callable proxytype) :: tr)
  = replay (register typeid (mkResource callable proxytype) reg) tr.
Proof. reflexivity. Qed.

(** *** What runs before and after the start of the manager *)

Lemma startup_no_start :
  Forall (fun ev => ev <> Called manager_start) (trace (startup env)).
Proof.
  unfold startup, register_resources, invoke.
  all_events ltac:(discriminate).
Qed.

Lemma reached_start fuel :
  In (Called manager_start) (trace (main env fuel)) ->
  result (startup env) = Ret tt.
Proof.
  intros Hin. destruct (result (startup env)) as [[]|e|] eqn:Hr;
    [reflexivity|exfalso..];
    unfold main in Hin;
    rewrite trace_bind_stop in Hin by (intros a; rewrite Hr; discriminate);
    pose proof startup_no_start as Hno;
    rewrite List.Forall_forall in Hno;
    exact (Hno _ Hin eq_refl).
Qed.

Lemma drain_no_register :
  forall fuel k,
  Forall (fun ev => is_register ev = false) (trace (drain env fuel k)).
Proof.
  induction fuel as [|fuel IH]; intros k; [constructor|].
  rewrite drain_S. unfold print.
  all_events ltac:(reflexivity). apply IH.
Qed.

Lemma after_startup_no_register fuel :
  Forall (fun ev => is_register ev = false)
         (trace (start_manager env ≫= fun _ => launch env fuel)).
Proof.
  unfold start_manager, launch, cleanup, cleanup_body, release, begin_exit,
    await_tasks, dump_pickles, update_spawns, invoke, raise.
  all_events ltac:(reflexivity); apply drain_no_register.
Qed.

(** The registry of a run that got as far as starting the manager. *)
Lemma startup_registry :
  result (startup env) = Ret tt ->
  registry_of (trace (startup env))
  = (if MAP_WORKERS env
     then register "worker_dict" (mkResource "get_workers" (Some "DictProxy"))
     else id)
      (register "extra_queue" (mkResource "get_extras" None)
         (register "captcha_queue" (mkResource "get_captchas" None) ∅)).
Proof.
  unfold startup, register_resources, invoke. intros H.
  rewrite result_bind_ask in H. rewrite trace_bind_ask.
  destruct (raises env parse_args 0); [discriminate H|].
  rewrite result_bind_ask in H. rewrite trace_bind_ask.
  destruct (raises env (get_logger None) 0); [discriminate H|].
  assert (Hlog : forall (m : M unit) (K : unit -> M unit) reg,
             Forall (fun ev => is_register ev = false) (trace m) ->
             result (m ≫= K) = Ret tt ->
             result (K tt) = Ret tt
             /\ replay reg (trace (m ≫= K)) = replay reg (trace (K tt))).
  { intros m K reg Hq Hres.
    destruct (bind_returns _ _ _ Hres) as ([] & Hm & HK).
    split; [exact HK|]. rewrite (bind_ret _ _ _ Hm). cbn [trace].
    unfold replay. rewrite foldl_app. fold (replay reg (trace m)).
    rewrite (replay_quiet _ _ Hq). reflexivity. }
  unfold registry_of. rewrite !replay_cons_quiet by reflexivity.
  apply Hlog with (reg := ∅) in H as [H Hreg];
    [|destruct (status_bar (args env)); all_events ltac:(reflexivity)].
  rewrite Hreg. clear Hreg.
  rewrite result_bind_ask in H. rewrite trace_bind_ask.
  destruct (raises env (log_setLevel _) 0); [discriminate H|].
  rewrite replay_cons_quiet by reflexivity.
  rewrite !bind_assoc in H. rewrite !bind_assoc.
  rewrite result_bind_ask in H. rewrite trace_bind_ask.
  destruct (raises env (AccountManager_register "captcha_queue" _ _) 0);
    [discriminate H|].
  rewrite replay_cons_register.
  rewrite result_bind_ask in H. rewrite trace_bind_ask.
  destruct (raises env (AccountManager_register "extra_queue" _ _) 0);
    [discriminate H|].
  rewrite replay_cons_register.
  destruct (MAP_WORKERS env).
  - rewrite result_bind_ask in H. rewrite trace_bind_ask.
    destruct (raises env (AccountManager_register "worker_dict" _ _) 0);
      [discriminate H|].
    rewrite replay_cons_register.
    rewrite trace_bind_ask.
    destruct (raises env get_address 0); reflexivity.
  - rewrite bind_mret. rewrite trace_bind_ask.
    destruct (raises env get_address 0); reflexivity.
Qed.

Lemma main_registry fuel :
  In (Called manager_start) (trace (main env fuel)) ->
  registry_of (trace (main env fuel)) = registry_of (trace (startup env)).
Proof.
  intros Hin. pose proof (reached_start fuel Hin) as Hret.
  unfold main. rewrite (bind_ret _ _ _ Hret). cbn [trace].
  apply registry_of_app_quiet. apply after_startup_no_register.
Qed.

(** *** The claims about the manager *)

(** Claim C7.  In every run of [main] that gets as far as starting the
    manager, the registry of the manager holds [worker_dict] if and only
    if [conf.MAP_WORKERS] is set; with the flag unset a lookup of
    [worker_dict] ends in the not-registered error, not in a proxy; the two
    queues [captcha_queue] and [extra_queue] are registered either way. *)
Theorem worker_dict_registered_iff_flag fuel :
  In (Called manager_start) (trace (main env fuel)) ->
  let reg := registry_of (trace (main env fuel)) in
  (is_Some (reg !! "worker_dict") <-> MAP_WORKERS env = true)
  /\ (MAP_WORKERS env = false ->
      lookup_resource "worker_dict" reg = NotRegistered "worker_dict")
  /\ lookup_resource "captcha_queue" reg
     = Proxy (mkResource "get_captchas" None)
  /\ lookup_resource "extra_queue" reg
     = Proxy (mkResource "get_extras" None).
Proof.
  intros Hin reg. subst reg.
  rewrite (main_registry fuel Hin).
  rewrite (startup_registry (reached_start fuel Hin)).
  unfold lookup_resource, register.
  destruct (MAP_WORKERS env); unfold id.
  - split; [|split; [|split]].
    + split; [reflexivity|]. intros _. eexists. reflexivity.
    + discriminate.
    + reflexivity.
    + reflexivity.
  - split; [|split; [|split]].
    + split; [|discriminate]. intros [r Hr]. discriminate Hr.
    + reflexivity.
    + reflexivity.
    + reflexivity.
Qed.

Lemma start_manager_fails e :
  raises env manager_start 0 = Some e ->
  isinstance e "OSError" || isinstance e "EOFError" = true ->
  start_manager env
  = mkM [Called manager_start]
        (Exc (Exn cOSError
                (if bool_decide (platform env = "win32")
                    || negb (isinstance_str (address env))
                 then msg_same_address
                 else msg_same_socket (address env))
                (Some e))).
Proof.
  intros Hraise Hcls. unfold start_manager, try_except, invoke, ask.
  cbn [result trace]. rewrite Hraise, Hcls.
  destruct (bool_decide (platform env = "win32")
            || negb (isinstance_str (address env))); reflexivity.
Qed.

Lemma messages_differ a : msg_same_address <> msg_same_socket a.
Proof.
  unfold msg_same_address, msg_same_socket. simpl. discriminate.
Qed.

(** Claim C8.  In every run of [main] in which [manager.start] is reached
    and raises [OSError] or [EOFError], [main] stops there: nothing is
    called after [manager.start], and [main] ends in an [OSError] caused by
    that exception.  Its message is the one about the manager address
    (stop that process or change [MANAGER_ADDRESS]) when the platform is
    win32 or the address is not a string, and the one about the socket
    (stop that process or [rm] the socket path) otherwise; the two messages
    differ whatever the address. *)
Theorem address_in_use_is_fatal fuel e :
  In (Called manager_start) (trace (main env fuel)) ->
  raises env manager_start 0 = Some e ->
  isinstance e "OSError" || isinstance e "EOFError" = true ->
  main env fuel
  = mkM (trace (startup env) ++ [Called manager_start])
        (Exc (Exn cOSError
                (if bool_decide (platform env = "win32")
                    || negb (isinstance_str (address env))
                 then "Another instance is running with the same manager address. Stop that process or change your MANAGER_ADDRESS."
                 else "Another instance is running with the same socket. Stop that process or: rm "
                        ++ format_address (address env))
                (Some e)))
  /\ (forall a, msg_same_address <> msg_same_socket a).
Proof.
  intros Hin Hraise Hcls. split; [|exact messages_differ].
  pose proof (reached_start fuel Hin) as Hret.
  unfold main. rewrite (bind_ret _ _ _ Hret). cbn [trace result].
  rewrite (start_manager_fails e Hraise Hcls).
  reflexivity.
Qed.

End Startup.

(** *** The claims on concrete runs *)





Lemma await_timeout_moves_on_witness :
  await_tasks slow_tasks
  = mkM [Called (LOOP_run_until_complete_wait_for 40);
         Printed "Coroutine completion timed out, moving on."]
        (Ret tt)
  /\ exists rest,
       trace (cleanup slow_tasks 3)
       = [Called (overseer_set_running false);
          Printed "Exiting, please wait until all tasks finish";
          Called (get_logger (Some "cleanup"));
          Printed "Finishing tasks...";
          Called LOOP_create_task_exit_progress;
          Called Task_all_tasks;
          Called asyncio_gather;
          Called (LOOP_run_until_complete_wait_for 40);
          Printed "Coroutine completion timed out, moving on.";
          Called overseer_refresh_dict]
         ++ rest.
Proof.
  destruct (await_timeout_moves_on slow_tasks 3 (Exn cTimeoutError "" None))
    as (Hawait & Hnext & _).
  - reflexivity.
  - vm_compute. reflexivity.
  - split; [exact Hawait|]. apply Hnext.
    intros c Hc. simpl in Hc.
    repeat (destruct Hc as [<-|Hc]; [reflexivity|]). destruct Hc.
Defined.

Lemma manager_start_reached (env : Env) :
  result (startup env) = Ret tt ->
  In (Called manager_start) (trace (main env 3)).
Proof.
  intros Hret. unfold main. rewrite (bind_ret _ _ _ Hret). cbn [trace].
  apply in_or_app. right.
  destruct (trace_bind_prefix (start_manager env) (fun _ => launch env 3))
    as [rest ->].
  apply in_or_app. left.
  unfold start_manager.
  assert (H : exists rest, trace (try_except (invoke env manager_start)
     (fun e =>
       if isinstance e "OSError" || isinstance e "EOFError" then
         Some (if bool_decide (platform env = "win32")
                  || negb (isinstance_str (address env))
               then raise (Exn cOSError msg_same_address (Some e))
               else raise (Exn cOSError (msg_same_socket (address env))
                               (Some e)))
       else None)) = Called manager_start :: rest).
  { unfold try_except, invoke, ask. cbn [result trace].
    destruct (raises env manager_start 0) as [e|]; [|eexists; reflexivity].
    destruct (isinstance e "OSError" || isinstance e "EOFError");
      eexists; reflexivity. }
  destruct H as [rest' ->]. left. reflexivity.
Qed.

Lemma worker_dict_registered_iff_flag_witness :
  lookup_resource "worker_dict" (registry_of (trace (main no_workers 3)))
  = NotRegistered "worker_dict"
  /\ lookup_resource "captcha_queue" (registry_of (trace (main no_workers 3)))
     = Proxy (mkResource "get_captchas" None)
  /\ is_Some (registry_of (trace (main calm 3)) !! "worker_dict").
Proof.
  destruct (worker_dict_registered_iff_flag no_workers 3)
    as (_ & Hnot & Hcaptcha & _).
  { apply manager_start_reached. vm_compute. reflexivity. }
  destruct (worker_dict_registered_iff_flag calm 3) as (Hiff & _).
  { apply manager_start_reached. vm_compute. reflexivity. }
  split; [|split].
  - apply Hnot. reflexivity.
  - exact Hcaptcha.
  - apply Hiff. reflexivity.
Defined.

Lemma address_in_use_is_fatal_witness :
  result (main socket_taken 3)
  = Exc (Exn cOSError
           "Another instance is running with the same socket. Stop that process or: rm monocle.sock"
           (Some (Exn cOSError "Address already in use" None))).
Proof.
  destruct (address_in_use_is_fatal socket_taken 3
              (Exn cOSError "Address already in use" None)) as [Hmain _].
  - apply manager_start_reached. vm_compute. reflexivity.
  - reflexivity.
  - vm_compute. reflexivity.
  - rewrite Hmain. vm_compute. reflexivity.
Defined.

End ScanFacts.

(** ** 10. More about the queue *)

Module QueueExtras.
Import PyQueue Parts QueueFacts.

Section More.

Context {item : Type}.

Implicit Types (q : Queue item) (w : world item) (evs : list (wake item))
  (ops : list (op item)) (N : Z).

Lemma fifo_from ops :
  forall q,
  (maxsize q <= 0)%Z ->
  dequeued_items (snd (perform ops q)) ++ queue (fst (perform ops q))
  = queue q ++ enqueued_items (snd (perform ops q)).
Proof.
  induction ops as [|o ops IH]; intros q Hm.
  - simpl. rewrite app_nil_r. reflexivity.
  - rewrite perform_cons. cbn [fst snd].
    assert (Hm' : (maxsize (fst (step o q)) <= 0)%Z)
      by (rewrite step_maxsize; exact Hm).
    specialize (IH _ Hm'). destruct o as [x|].
    + simpl step in *. rewrite put_unbounded in * by exact Hm.
      cbn [fst snd] in *. unfold enqueued_items, dequeued_items in *.
      cbn [flat_map app] in *. rewrite IH. simpl queue.
      rewrite <- app_assoc. reflexivity.
    + destruct q as [[|y rest] m u a b].
      * exact IH.
      * unfold step, get, _get, _qsize in *. simpl in IH |- *.
        unfold enqueued_items, dequeued_items in *. simpl.
        f_equal. exact IH.
Qed.

(** First in, first out: after any calls of [put] and [get] on the captcha
    queue, the items got so far, in the order they were got, followed by
    the items still in the queue, are the items put, in the order they were
    put. *)
Theorem captcha_queue_is_fifo ops :
  dequeued_items (snd (perform ops _captcha_queue))
  ++ queue (fst (perform ops _captcha_queue))
  = enqueued_items (snd (perform ops _captcha_queue)).
Proof.
  apply (fifo_from ops _captcha_queue). simpl. lia.
Qed.

Lemma wait_until_exits N endtime post :
  forall pre fuel w,
  length pre < fuel ->
  (forall i, i < length pre ->
             (N <= occupancy (after (take i pre) w))%Z
             /\ (now (after (take i pre) w) < endtime)%Q) ->
  (occupancy (after pre w) < N)%Z ->
  wait_until fuel N endtime (pre ++ post) w = (after pre w, Exited).
Proof.
  induction pre as [|ev pre IH]; intros fuel w Hfuel Hfull Hroom.
  - unfold occupancy in Hroom. simpl in Hroom.
    destruct fuel; simpl;
      (destruct (Z.leb_spec N (_qsize (this w))); [lia | reflexivity]).
  - destruct fuel as [|fuel]; [simpl in Hfuel; lia|].
    destruct (Hfull 0) as [Hocc Hnow]; [simpl; lia|].
    unfold occupancy in Hocc. simpl in Hocc, Hnow.
    change ((ev :: pre) ++ post) with (ev :: (pre ++ post)).
    simpl wait_until.
    destruct (Z.leb_spec N (_qsize (this w))); [|lia].
    assert (Hrem : Qle_bool (endtime - now w) 0 = false)
      by (apply Qle_bool_false; lra).
    rewrite Hrem. rewrite after_cons. apply IH.
    + simpl in Hfuel. lia.
    + intros i Hi. apply (Hfull (S i)). simpl. lia.
    + rewrite after_cons in Hroom. exact Hroom.
Qed.

(** A timed [full_wait] returns at the first wake-up that finds the
    occupancy below the threshold, with the time waited, provided every
    earlier look at the queue found it full before the deadline.  The clock
    at that wake-up is not looked at: the call returns even when the
    deadline has passed by then. *)
Theorem full_wait_timed_returns N t pre post w :
  (0 < N)%Z -> (0 <= t)%Q ->
  (forall i, i < length pre ->
             (N <= occupancy (after (take i pre) w))%Z
             /\ (now (after (take i pre) w) < now w + t)%Q) ->
  (occupancy (after pre w) < N)%Z ->
  full_wait N (Some t) (pre ++ post) w
  = (notified (after pre w), Returned (now (after pre w) - now w)).
Proof.
  intros HN Ht Hfull Hroom. unfold full_wait.
  destruct (Z.ltb_spec 0 N); [|lia].
  assert (Hnn : Qle_bool 0 t = true) by (apply Qle_bool_iff; exact Ht).
  rewrite Hnn. cbn [negb].
  rewrite (wait_until_exits N (now w + t) post pre); try assumption.
  - reflexivity.
  - rewrite length_app. lia.
Qed.

(** A [full_wait] with a timeout always comes to an end: whatever the other
    threads do, it returns or raises. *)
Theorem full_wait_timed_ends N t evs w :
  snd (full_wait N (Some t) evs w) <> Blocked.
Proof.
  unfold full_wait. destruct (0 <? N)%Z; [|discriminate].
  destruct (negb (Qle_bool 0 t)); [discriminate|].
  pose proof (wait_until_awake N (now w + t) evs (S (length evs)) w) as H.
  destruct (wait_until _ _ _ _ _) as [w' [| |]]; simpl in *;
    try discriminate.
  exfalso. apply H; lia || reflexivity.
Qed.

(** With a timeout of zero [full_wait] is a probe: on a queue at or above
    the threshold it raises [Full] at once, without waiting. *)
Theorem full_wait_zero_timeout N t evs w :
  (0 < N)%Z -> (t == 0)%Q -> (N <= occupancy w)%Z ->
  full_wait N (Some t) evs w = (w, RaisedFull).
Proof.
  intros HN Ht Hocc. unfold full_wait, occupancy in *.
  destruct (Z.ltb_spec 0 N); [|lia].
  assert (Hnn : Qle_bool 0 t = true) by (apply Qle_bool_iff; lra).
  rewrite Hnn. cbn [negb]. simpl wait_until.
  destruct (Z.leb_spec N (_qsize (this w))); [|lia].
  assert (Hrem : Qle_bool (now w + t - now w) 0 = true)
    by (apply Qle_bool_iff; lra).
  rewrite Hrem. reflexivity.
Qed.

(** [full_wait] calls [self.not_empty.notify()] once when it returns and
    not at all when it raises or stays blocked: but for that one
    notification, the queue object it leaves is the one the other threads
    left at its last wake-up. *)
Theorem full_wait_notifies_on_return N timeout evs w :
  exists k,
    this (fst (full_wait N timeout evs w))
    = (match snd (full_wait N timeout evs w) with
       | Returned _ => notify_not_empty
       | _ => fun q => q
       end) (this (after (take k evs) w)).
Proof.
  unfold full_wait.
  destruct (0 <? N)%Z; [|exists 0; reflexivity].
  destruct timeout as [t|].
  - destruct (negb (Qle_bool 0 t)); [exists 0; reflexivity|].
    destruct (wait_until_frame N (now w + t) (S (length evs)) evs w)
      as [k Hk].
    exists k. rewrite <- Hk.
    destruct (wait_until _ _ _ _ _) as [w1 [| |]]; reflexivity.
  - pose proof (wait_while_full_spec N evs w) as Hloop.
    destruct (wait_while_full N evs w) as [w1 [|]].
    + destruct Hloop as (_ & _ & k & ->). exists k. reflexivity.
    + destruct Hloop as [_ ->]. exists (length evs).
      rewrite firstn_all. reflexivity.
Qed.

End More.

Lemma full_wait_timed_returns_witness :
  full_wait 1 (Some (5 # 1)) ([Samples.producer_wakes; Samples.consumer_wakes;
                               Samples.consumer_wakes] ++ [])
            Samples.one_item
  = (notified (after [Samples.producer_wakes; Samples.consumer_wakes;
                      Samples.consumer_wakes] Samples.one_item),
     Returned (12 - 10)).
Proof.
  apply (full_wait_timed_returns 1 (5 # 1)
           [Samples.producer_wakes; Samples.consumer_wakes;
            Samples.consumer_wakes] [] Samples.one_item).
  - lia.
  - vm_compute. discriminate.
  - intros i Hi.
    destruct i as [|[|[|i]]]; [| | |simpl in Hi; lia];
      (split; [vm_compute; discriminate | vm_compute; reflexivity]).
  - vm_compute. reflexivity.
Defined.

Lemma full_wait_zero_timeout_witness :
  full_wait 1 (Some (0 # 3)) [Samples.consumer_wakes] Samples.one_item
  = (Samples.one_item, RaisedFull).
Proof.
  apply full_wait_zero_timeout.
  - lia.
  - reflexivity.
  - vm_compute. discriminate.
Defined.

End QueueExtras.

(** ** 11. More about [cleanup] and [main] *)

Module ScanExtras.
Import Py Scan Parts Samples Samples2 ScanFacts.

Section Sequencing.

Context {A B : Type}.

Implicit Types (m : M A) (K : A -> M B).

Lemma result_bind_ret m K a :
  result m = Ret a -> result (m ≫= K) = result (K a).
Proof. intros H. rewrite (bind_ret _ _ _ H). reflexivity. Qed.

Lemma trace_bind_ret m K a :
  result m = Ret a -> trace (m ≫= K) = trace m ++ trace (K a).
Proof. intros H. rewrite (bind_ret _ _ _ H). reflexivity. Qed.

Lemma in_trace_bind_here m K x :
  In x (trace m) -> In x (trace (m ≫= K)).
Proof.
  intros H. destruct (trace_bind_prefix m K) as [rest ->].
  apply in_or_app. left. exact H.
Qed.

Lemma in_trace_bind_later m K a x :
  result m = Ret a -> In x (trace (K a)) -> In x (trace (m ≫= K)).
Proof.
  intros Hm H. rewrite (trace_bind_ret _ _ _ Hm).
  apply in_or_app. right. exact H.
Qed.

Lemma in_trace_bind_cases m K x :
  In x (trace (m ≫= K)) ->
  In x (trace m) \/ exists a, result m = Ret a /\ In x (trace (K a)).
Proof.
  unfold mbind, M_bind, bind. destruct (result m) as [a|e|]; simpl;
    intros H; [|left; exact H..].
  apply in_app_or in H. destruct H as [H|H]; [left; exact H|].
  right. exists a. split; [reflexivity | exact H].
Qed.

End Sequencing.

Section Runs.

Variable env : Env.

Lemma ask_returns {A : Type} c k (v : A) :
  raises env c k = None -> ask env c k v = mkM [Called c] (Ret v).
Proof. intros H. unfold ask. rewrite H. reflexivity. Qed.

Lemma bind_ask_returns {A B : Type} c k (v : A) (K : A -> M B) :
  raises env c k = None ->
  ask env c k v ≫= K = mkM (Called c :: trace (K v)) (result (K v)).
Proof.
  intros H. rewrite (ask_returns c k v H).
  unfold mbind, M_bind, bind. reflexivity.
Qed.

Lemma bind_ask_raises {A B : Type} c k (v : A) (K : A -> M B) e :
  raises env c k = Some e ->
  ask env c k v ≫= K = mkM [Called c] (Exc e).
Proof.
  intros H. unfold mbind, M_bind, bind, ask. rewrite H. reflexivity.
Qed.

Lemma bind_ask_ext {A B : Type} c k (v : A) (K1 K2 : A -> M B) :
  (raises env c k = None -> K1 v = K2 v) ->
  ask env c k v ≫= K1 = ask env c k v ≫= K2.
Proof.
  intros H. destruct (raises env c k) as [e|] eqn:Hr.
  - rewrite !(bind_ask_raises _ _ _ _ e Hr). reflexivity.
  - rewrite !(bind_ask_returns _ _ _ _ Hr), (H eq_refl). reflexivity.
Qed.

Lemma bind_print {B : Type} s (K : unit -> M B) :
  print s ≫= K = mkM (Printed s :: trace (K tt)) (result (K tt)).
Proof. reflexivity. Qed.

(** *** The blocks of [cleanup] when their calls return *)

Lemma begin_exit_returns :
  raises env (overseer_set_running false) 0 = None ->
  raises env (get_logger (Some "cleanup")) 0 = None ->
  raises env LOOP_create_task_exit_progress 0 = None ->
  raises env Task_all_tasks 0 = None ->
  raises env asyncio_gather 0 = None ->
  begin_exit env
  = mkM [Called (overseer_set_running false);
         Printed "Exiting, please wait until all tasks finish";
         Called (get_logger (Some "cleanup"));
         Printed "Finishing tasks...";
         Called LOOP_create_task_exit_progress;
         Called Task_all_tasks;
         Called asyncio_gather]
        (Ret tt).
Proof.
  intros H1 H2 H3 H4 H5. unfold begin_exit, invoke.
  rewrite (bind_ask_returns _ _ _ _ H1), bind_print. cbn [trace result].
  rewrite (bind_ask_returns _ _ _ _ H2), bind_print. cbn [trace result].
  rewrite (bind_ask_returns _ _ _ _ H3). cbn [trace result].
  rewrite (bind_ask_returns _ _ _ _ H4). cbn [trace result].
  rewrite (ask_returns _ _ _ H5). reflexivity.
Qed.

Lemma await_tasks_returns :
  raises env (LOOP_run_until_complete_wait_for 40) 0 = None ->
  await_tasks env = mkM [Called (LOOP_run_until_complete_wait_for 40)] (Ret tt).
Proof.
  intros H. unfold await_tasks, try_except, invoke.
  rewrite (ask_returns _ _ _ H). reflexivity.
Qed.

Lemma dump_pickles_returns :
  raises env (dump_pickle "accounts") 0 = None ->
  raises env FORT_CACHE_pickle 0 = None ->
  raises env conf_CACHE_CELLS 0 = None ->
  raises env (dump_pickle "cells") 0 = None ->
  result (dump_pickles env) = Ret tt.
Proof.
  intros H1 H2 H3 H4. unfold dump_pickles, invoke.
  rewrite bind_print. cbn [result].
  rewrite (bind_ask_returns _ _ _ _ H1). cbn [result].
  rewrite (bind_ask_returns _ _ _ _ H2). cbn [result].
  rewrite (bind_ask_returns _ _ _ _ H3). cbn [result].
  destruct (CACHE_CELLS env); [|reflexivity].
  rewrite (ask_returns _ _ _ H4). reflexivity.
Qed.

Lemma update_spawns_returns :
  raises env SPAWNS_update 0 = None ->
  update_spawns env = mkM [Called SPAWNS_update] (Ret tt).
Proof.
  intros H. unfold update_spawns, try_except, invoke.
  rewrite (ask_returns _ _ _ H). reflexivity.
Qed.

(** *** The drain loop *)

Lemma drain_returns :
  (forall k, raises env DB_PROC_queue_empty k = None) ->
  (forall k, raises env DB_PROC_queue_qsize k = None) ->
  (forall k, raises env (time_sleep (1 # 2)) k = None) ->
  forall n fuel k,
  n < fuel ->
  (forall j, j < n -> db_empty env (k + j) = false) ->
  db_empty env (k + n) = true ->
  drain env fuel k = mkM (polls env k n) (Ret tt).
Proof.
  intros He Hq Hs. induction n as [|n IH]; intros fuel k Hfuel Hbusy Hempty;
    (destruct fuel as [|fuel]; [lia|]); rewrite drain_S;
    rewrite (bind_ask_returns _ _ _ _ (He k)).
  - rewrite Nat.add_0_r in Hempty. rewrite Hempty. reflexivity.
  - assert (Hk : db_empty env k = false).
    { rewrite <- (Nat.add_0_r k). apply Hbusy. lia. }
    rewrite Hk.
    rewrite (bind_ask_returns _ _ _ _ (Hq k)), bind_print. cbn [trace result].
    rewrite (bind_ask_returns _ _ _ _ (Hs k)). cbn [trace result].
    rewrite (IH fuel (S k)).
    + reflexivity.
    + lia.
    + intros j Hj. replace (S k + j) with (k + S j) by lia.
      apply Hbusy. lia.
    + replace (S k + n) with (k + S n) by lia. exact Hempty.
Qed.

Lemma polls_sleeps k n : length (List.filter is_sleep (polls env k n)) = n.
Proof.
  revert k. induction n as [|n IH]; intros k; [reflexivity|].
  simpl. rewrite IH. reflexivity.
Qed.

Lemma drain_spins :
  (forall k, raises env DB_PROC_queue_empty k = None) ->
  (forall k, raises env DB_PROC_queue_qsize k = None) ->
  (forall k, raises env (time_sleep (1 # 2)) k = None) ->
  (forall k, db_empty env k = false) ->
  forall fuel k, result (drain env fuel k) = Spin.
Proof.
  intros He Hq Hs Hbusy. induction fuel as [|fuel IH]; intros k;
    [reflexivity|].
  rewrite drain_S.
  rewrite (bind_ask_returns _ _ _ _ (He k)). cbn [result]. rewrite Hbusy.
  rewrite (bind_ask_returns _ _ _ _ (Hq k)), bind_print. cbn [result].
  rewrite (bind_ask_returns _ _ _ _ (Hs k)). cbn [result]. apply IH.
Qed.

Lemma drain_events (P : event -> Prop) :
  P (Called DB_PROC_queue_empty) -> P (Called DB_PROC_queue_qsize) ->
  (forall s, P (Printed s)) -> P (Called (time_sleep (1 # 2))) ->
  forall fuel k, Forall P (trace (drain env fuel k)).
Proof.
  intros H1 H2 H3 H4. induction fuel as [|fuel IH]; intros k; [constructor|].
  rewrite drain_S. unfold print.
  all_events ltac:(first [exact H1 | exact H2 | apply H3 | exact H4]).
  apply IH.
Qed.

Lemma drain_polls_first fuel k :
  In (Called DB_PROC_queue_empty) (trace (drain env (S fuel) k)).
Proof.
  rewrite drain_S. apply in_trace_bind_here. left. reflexivity.
Qed.

(** *** The drain loop, seen from outside *)

(** The drain loop polls the queue of the database writer until it finds
    it empty: when the first empty poll is the [n]-th after the one it
    starts with and no call raises, the loop reports the pending count and
    sleeps half a time unit exactly [n] times, then returns. *)
Theorem drain_polls_until_empty n fuel k :
  (forall j, raises env DB_PROC_queue_empty j = None) ->
  (forall j, raises env DB_PROC_queue_qsize j = None) ->
  (forall j, raises env (time_sleep (1 # 2)) j = None) ->
  n < fuel ->
  (forall j, j < n -> db_empty env (k + j) = false) ->
  db_empty env (k + n) = true ->
  drain env fuel k = mkM (polls env k n) (Ret tt)
  /\ length (List.filter is_sleep (trace (drain env fuel k))) = n.
Proof.
  intros He Hq Hs Hfuel Hbusy Hempty.
  rewrite (drain_returns He Hq Hs n fuel k Hfuel Hbusy Hempty).
  split; [reflexivity | apply polls_sleeps].
Qed.

Lemma cleanup_body_events (P : event -> Prop) fuel :
  (forall c, c <> manager_shutdown -> c <> SessionManager_close ->
             c <> close_sessions -> c <> LOOP_close -> P (Called c)) ->
  (forall s, P (Printed s)) ->
  Forall P (trace (cleanup_body env fuel)).
Proof.
  intros Hc Hp.
  unfold cleanup_body, begin_exit, await_tasks, dump_pickles, update_spawns,
    invoke, print.
  all_events ltac:(first [apply Hp | apply Hc; discriminate]).
  apply drain_events; first [apply Hp | apply Hc; discriminate].
Qed.

Lemma cleanup_body_never_releases fuel c :
  In c [manager_shutdown; SessionManager_close; close_sessions; LOOP_close] ->
  ~ In (Called c) (trace (cleanup_body env fuel)).
Proof.
  intros Hc Hin.
  pose proof (cleanup_body_events (fun ev => ev <> Called c) fuel) as H.
  rewrite List.Forall_forall in H.
  refine (H _ _ _ Hin eq_refl).
  - intros c' H1 H2 H3 H4 Heq. injection Heq as ->.
    simpl in Hc. intuition congruence.
  - discriminate.
Qed.

(** [cleanup] has no deadline for the database writer: when no call raises
    and the writer's queue never becomes empty, [cleanup] is still in its
    drain loop however long it runs, and the manager is not shut down. *)
Theorem cleanup_waits_for_writer_forever fuel :
  all_return env ->
  (forall k, db_empty env k = false) ->
  result (cleanup env fuel) = Spin
  /\ ~ In (Called manager_shutdown) (trace (cleanup env fuel)).
Proof.
  intros Hret Hbusy.
  assert (Hbody : result (cleanup_body env fuel) = Spin).
  { unfold cleanup_body.
    rewrite (result_bind_ret _ _ tt)
      by (rewrite begin_exit_returns by apply Hret; reflexivity).
    rewrite (result_bind_ret _ _ tt)
      by (rewrite await_tasks_returns by apply Hret; reflexivity).
    unfold invoke.
    rewrite (bind_ask_returns overseer_refresh_dict) by apply Hret.
    cbn [result].
    rewrite (result_bind_ret _ _ tt)
      by (apply dump_pickles_returns; apply Hret).
    rewrite (bind_ask_returns DB_PROC_stop) by apply Hret.
    cbn [result]. rewrite bind_print. cbn [result].
    rewrite (result_bind_ret _ _ tt)
      by (rewrite update_spawns_returns by apply Hret; reflexivity).
    apply drain_spins; intros; first [apply Hret | apply Hbusy]. }
  unfold cleanup, try_finally. rewrite Hbody. split; [exact Hbody|].
  apply cleanup_body_never_releases. left. reflexivity.
Qed.

(** *** Failures that [cleanup] contains, and failures it does not *)

Lemma least_true (f : nat -> bool) :
  forall k, f k = true ->
  exists n, n <= k /\ f n = true /\ forall j, j < n -> f j = false.
Proof.
  intros k. revert f. induction k as [|k IH]; intros f Hk.
  - exists 0. split; [lia|]. split; [exact Hk | intros j Hj; lia].
  - destruct (f 0) eqn:H0.
    + exists 0. split; [lia|]. split; [exact H0 | intros j Hj; lia].
    + destruct (IH (fun j => f (S j)) Hk) as (n & Hn & Hfn & Hlt).
      exists (S n). split; [lia|]. split; [exact Hfn|].
      intros [|j] Hj; [exact H0 | apply Hlt; lia].
Qed.

Lemma drain_ends fuel :
  (forall k, raises env DB_PROC_queue_empty k = None) ->
  (forall k, raises env DB_PROC_queue_qsize k = None) ->
  (forall k, raises env (time_sleep (1 # 2)) k = None) ->
  drains_within env fuel ->
  result (drain env fuel 0) = Ret tt
  /\ In (Called DB_PROC_queue_empty) (trace (drain env fuel 0)).
Proof.
  intros He Hq Hs (k & Hk & Hempty).
  destruct (least_true (db_empty env) k Hempty) as (n & Hn & Hfn & Hlt).
  rewrite (drain_returns He Hq Hs n fuel 0); [|lia|exact Hlt|exact Hfn].
  split; [reflexivity|]. destruct n; left; reflexivity.
Qed.

Lemma cleanup_body_runs fuel :
  result (begin_exit env) = Ret tt ->
  result (await_tasks env) = Ret tt ->
  raises env overseer_refresh_dict 0 = None ->
  result (dump_pickles env) = Ret tt ->
  raises env DB_PROC_stop 0 = None ->
  result (update_spawns env) = Ret tt ->
  cleanup_body env fuel
  = mkM (trace (begin_exit env) ++ trace (await_tasks env)
         ++ [Called overseer_refresh_dict] ++ trace (dump_pickles env)
         ++ [Called DB_PROC_stop; Printed "Updating spawns pickle..."]
         ++ trace (update_spawns env) ++ trace (drain env fuel 0))
        (result (drain env fuel 0)).
Proof.
  intros Hb Ha Hr Hd Hs Hu. unfold cleanup_body, invoke.
  rewrite (bind_ret _ _ _ Hb). rewrite (bind_ret _ _ _ Ha).
  rewrite (bind_ask_returns _ _ _ _ Hr). cbn [trace result].
  rewrite (bind_ret _ _ _ Hd). cbn [trace result].
  rewrite (bind_ask_returns _ _ _ _ Hs), bind_print. cbn [trace result].
  rewrite (bind_ret _ _ _ Hu). reflexivity.
Qed.

Lemma cleanup_ends fuel r :
  result (cleanup_body env fuel) = r -> r <> Spin ->
  release_returns env ->
  result (cleanup env fuel) = r
  /\ trace (cleanup env fuel)
     = trace (cleanup_body env fuel) ++ trace (release env).
Proof.
  intros Hr Hns Hrel. unfold cleanup. split.
  - rewrite try_finally_result; [exact Hr | congruence |].
    rewrite (release_trace env Hrel). reflexivity.
  - apply try_finally_trace. congruence.
Qed.

Lemma others_release (skip : call) :
  (forall c k, c <> skip -> raises env c k = None) ->
  skip <> manager_shutdown -> skip <> SessionManager_close ->
  skip <> close_sessions -> skip <> LOOP_close ->
  release_returns env.
Proof.
  intros H H1 H2 H3 H4. repeat split; apply H; congruence.
Qed.

(** A failure of [SPAWNS.update()] that is an [Exception] does not stop the
    teardown: when every other call returns and the drain loop ends, the
    failure is logged as a warning, the writer's queue is still polled, and
    [cleanup] returns normally. *)
Theorem spawn_failure_is_contained fuel e :
  (forall c k, c <> SPAWNS_update -> raises env c k = None) ->
  raises env SPAWNS_update 0 = Some e ->
  isinstance e "Exception" = true ->
  drains_within env fuel ->
  result (cleanup env fuel) = Ret tt
  /\ In (Called (log_warning
                   "A wild {} appeared while updating spawns during exit!"
                   (short_name (class_of e))))
        (trace (cleanup env fuel))
  /\ In (Called DB_PROC_queue_empty) (trace (cleanup env fuel)).
Proof.
  intros Hret Hraise Hcls Hdrain.
  assert (Hspawn : update_spawns env
                   = mkM [Called SPAWNS_update;
                          Called (log_warning
                            "A wild {} appeared while updating spawns during exit!"
                            (short_name (class_of e)))]
                         (Ret tt)).
  { unfold update_spawns, try_except, invoke, ask. cbn [result trace].
    rewrite Hraise, Hcls. cbn [result trace].
    rewrite Hret by discriminate. reflexivity. }
  destruct (drain_ends fuel) as [Hres Hpoll];
    try (intros; apply Hret; discriminate); [exact Hdrain|].
  assert (Hbody : cleanup_body env fuel
                  = mkM (trace (begin_exit env) ++ trace (await_tasks env)
                         ++ [Called overseer_refresh_dict]
                         ++ trace (dump_pickles env)
                         ++ [Called DB_PROC_stop;
                             Printed "Updating spawns pickle..."]
                         ++ trace (update_spawns env)
                         ++ trace (drain env fuel 0))
                        (Ret tt)).
  { rewrite <- Hres. apply cleanup_body_runs.
    - rewrite begin_exit_returns by (apply Hret; discriminate). reflexivity.
    - rewrite await_tasks_returns by (apply Hret; discriminate). reflexivity.
    - apply Hret. discriminate.
    - apply dump_pickles_returns; apply Hret; discriminate.
    - apply Hret. discriminate.
    - rewrite Hspawn. reflexivity. }
  destruct (cleanup_ends fuel (Ret tt)) as [Hfin Htr].
  { rewrite Hbody. reflexivity. }
  { discriminate. }
  { apply (others_release SPAWNS_update Hret); discriminate. }
  split; [exact Hfin|]. rewrite Htr, Hbody. cbn [trace]. rewrite Hspawn.
  cbn [trace].
  split; rewrite !in_app_iff; simpl; auto 20.
Qed.

(** An exception of the wait for the pending tasks that is an [Exception]
    but not the timeout is logged with [log.exception] and the teardown
    goes on: when every other call returns and the drain loop ends, the
    accounting is refreshed and [cleanup] returns normally. *)
Theorem await_failure_is_contained fuel e :
  (forall c k, c <> LOOP_run_until_complete_wait_for 40 ->
               raises env c k = None) ->
  raises env (LOOP_run_until_complete_wait_for 40) 0 = Some e ->
  isinstance e "concurrent.futures.TimeoutError" = false ->
  isinstance e "Exception" = true ->
  drains_within env fuel ->
  result (cleanup env fuel) = Ret tt
  /\ In (Called (log_exception "A wild {} appeared during exit!"
                               (short_name (class_of e))))
        (trace (cleanup env fuel))
  /\ In (Called overseer_refresh_dict) (trace (cleanup env fuel)).
Proof.
  intros Hret Hraise Hto Hcls Hdrain.
  assert (Hawait : await_tasks env
                   = mkM [Called (LOOP_run_until_complete_wait_for 40);
                          Called (get_logger (Some "cleanup"));
                          Called (log_exception
                                    "A wild {} appeared during exit!"
                                    (short_name (class_of e)))]
                         (Ret tt)).
  { assert (Hask : ask env (LOOP_run_until_complete_wait_for 40) 0 tt
                   = mkM [Called (LOOP_run_until_complete_wait_for 40)]
                         (Exc e))
      by (unfold ask; rewrite Hraise; reflexivity).
    unfold await_tasks, try_except, invoke. rewrite Hask.
    cbn [result trace]. rewrite Hto, Hcls.
    rewrite (bind_ask_returns (get_logger (Some "cleanup")) 1)
      by (apply Hret; discriminate).
    rewrite (ask_returns (log_exception _ _) 0)
      by (apply Hret; discriminate).
    reflexivity. }
  destruct (drain_ends fuel) as [Hres Hpoll];
    try (intros; apply Hret; discriminate); [exact Hdrain|].
  assert (Hbody : cleanup_body env fuel
                  = mkM (trace (begin_exit env) ++ trace (await_tasks env)
                         ++ [Called overseer_refresh_dict]
                         ++ trace (dump_pickles env)
                         ++ [Called DB_PROC_stop;
                             Printed "Updating spawns pickle..."]
                         ++ trace (update_spawns env)
                         ++ trace (drain env fuel 0))
                        (Ret tt)).
  { rewrite <- Hres. apply cleanup_body_runs.
    - rewrite begin_exit_returns by (apply Hret; discriminate). reflexivity.
    - rewrite Hawait. reflexivity.
    - apply Hret. discriminate.
    - apply dump_pickles_returns; apply Hret; discriminate.
    - apply Hret. discriminate.
    - rewrite update_spawns_returns by (apply Hret; discriminate).
      reflexivity. }
  destruct (cleanup_ends fuel (Ret tt)) as [Hfin Htr].
  { rewrite Hbody. reflexivity. }
  { discriminate. }
  { apply (others_release (LOOP_run_until_complete_wait_for 40) Hret);
      discriminate. }
  split; [exact Hfin|]. rewrite Htr, Hbody. cbn [trace]. rewrite Hawait.
  cbn [trace].
  split; rewrite !in_app_iff; simpl; auto 20.
Qed.

(** An exception of the wait for the pending tasks that is not an
    [Exception] -- a second Ctrl-C, say -- is not contained: when the calls
    before the wait and the release calls return, nothing more of the body
    runs (the accounting is not refreshed, no pickle is dumped, the
    database writer is not stopped), the release block runs, and the
    exception leaves [cleanup]. *)
Theorem await_interrupt_skips_to_release fuel e :
  (forall c k, c <> LOOP_run_until_complete_wait_for 40 ->
               raises env c k = None) ->
  raises env (LOOP_run_until_complete_wait_for 40) 0 = Some e ->
  isinstance e "concurrent.futures.TimeoutError" = false ->
  isinstance e "Exception" = false ->
  cleanup env fuel
  = mkM [Called (overseer_set_running false);
         Printed "Exiting, please wait until all tasks finish";
         Called (get_logger (Some "cleanup"));
         Printed "Finishing tasks...";
         Called LOOP_create_task_exit_progress;
         Called Task_all_tasks;
         Called asyncio_gather;
         Called (LOOP_run_until_complete_wait_for 40);
         Printed "Closing pipes, sessions, and event loop...";
         Called manager_shutdown;
         Called SessionManager_close;
         Called close_sessions;
         Called LOOP_close;
         Printed "Done."]
        (Exc e).
Proof.
  intros Hret Hraise Hto Hcls.
  assert (Hawait : await_tasks env
                   = mkM [Called (LOOP_run_until_complete_wait_for 40)]
                         (Exc e)).
  { unfold await_tasks, try_except, invoke, ask. cbn [result trace].
    rewrite Hraise, Hto, Hcls. reflexivity. }
  assert (Hbody : cleanup_body env fuel
                  = mkM (trace (begin_exit env)
                         ++ [Called (LOOP_run_until_complete_wait_for 40)])
                        (Exc e)).
  { unfold cleanup_body.
    rewrite (bind_ret (begin_exit env) _ tt)
      by (rewrite begin_exit_returns by (apply Hret; discriminate);
          reflexivity).
    rewrite (bind_exc (await_tasks env) _ e) by (rewrite Hawait; reflexivity).
    rewrite Hawait. reflexivity. }
  unfold cleanup, try_finally. rewrite Hbody. cbn [result trace].
  rewrite (release_trace env)
    by (apply (others_release (LOOP_run_until_complete_wait_for 40) Hret);
        discriminate).
  rewrite begin_exit_returns by (apply Hret; discriminate).
  reflexivity.
Qed.

(** The release calls are not guarded one by one: when
    [manager.shutdown()] raises, in a run whose [try] body came to an end,
    the sessions and the event loop are not closed, and the exception of
    [manager.shutdown()] is the one that leaves [cleanup], whatever the
    body raised. *)
Theorem shutdown_failure_leaves_sessions_open fuel e :
  raises env manager_shutdown 0 = Some e ->
  drains_within env fuel
  \/ (exists e', result (cleanup_body env fuel) = Exc e') ->
  result (cleanup env fuel) = Exc e
  /\ trace (cleanup env fuel)
     = trace (cleanup_body env fuel)
       ++ [Printed "Closing pipes, sessions, and event loop...";
           Called manager_shutdown]
  /\ ~ In (Called SessionManager_close) (trace (cleanup env fuel))
  /\ ~ In (Called close_sessions) (trace (cleanup env fuel))
  /\ ~ In (Called LOOP_close) (trace (cleanup env fuel)).
Proof.
  intros Hraise Hends.
  assert (Hbody : result (cleanup_body env fuel) <> Spin).
  { destruct Hends as [Hdrain | [e' He']].
    - apply cleanup_body_no_spin. exact Hdrain.
    - rewrite He'. discriminate. }
  assert (Hrel : release env
                 = mkM [Printed "Closing pipes, sessions, and event loop...";
                        Called manager_shutdown]
                       (Exc e)).
  { unfold release, invoke. rewrite bind_print.
    rewrite (bind_ask_raises _ _ _ _ e Hraise). reflexivity. }
  assert (Htr : trace (cleanup env fuel)
                = trace (cleanup_body env fuel)
                  ++ [Printed "Closing pipes, sessions, and event loop...";
                      Called manager_shutdown]).
  { unfold cleanup. rewrite try_finally_trace by exact Hbody.
    rewrite Hrel. reflexivity. }
  split; [|split; [exact Htr|]].
  - unfold cleanup, try_finally. rewrite Hrel. cbn [result].
    destruct (result (cleanup_body env fuel)); [reflexivity..|congruence].
  - rewrite Htr.
    repeat split; intros Hin; apply in_app_or in Hin;
      (destruct Hin as [Hin|Hin];
       [revert Hin; apply cleanup_body_never_releases; simpl; auto
       |simpl in Hin; intuition discriminate]).
Qed.

(** *** [main] after the start of the manager *)

Lemma launch_parts fuel :
  launch env fuel
  = prepare env ≫= fun _ => try_finally (run_launcher env) (cleanup env fuel).
Proof.
  unfold launch, prepare, run_launcher, invoke.
  do 5 (rewrite bind_assoc; apply bind_ask_ext; intros _).
  reflexivity.
Qed.

Lemma main_after_start fuel :
  result (startup env) = Ret tt ->
  result (start_manager env) = Ret tt ->
  main env fuel
  = mkM (trace (startup env) ++ trace (start_manager env)
         ++ trace (launch env fuel))
        (result (launch env fuel)).
Proof.
  intros Hs Hm. unfold main.
  rewrite (bind_ret _ _ _ Hs). rewrite (bind_ret _ _ _ Hm). reflexivity.
Qed.

Lemma start_manager_returns :
  result (start_manager env) = Ret tt ->
  start_manager env = mkM [Called manager_start] (Ret tt).
Proof.
  unfold start_manager, try_except, invoke, ask. cbn [result trace].
  destruct (raises env manager_start 0) as [e|]; [|reflexivity].
  destruct (isinstance e "OSError" || isinstance e "EOFError");
    [|discriminate].
  destruct (bool_decide (platform env = "win32")
            || negb (isinstance_str (address env))); discriminate.
Qed.

Lemma run_launcher_no_spin : result (run_launcher env) <> Spin.
Proof. unfold run_launcher, invoke. no_spin. Qed.

(** An exception of [manager.start] that is neither an [OSError] nor an
    [EOFError] leaves [main] as it is, unwrapped, and nothing is called
    after [manager.start]. *)
Theorem other_start_failure_propagates fuel e :
  result (startup env) = Ret tt ->
  raises env manager_start 0 = Some e ->
  isinstance e "OSError" || isinstance e "EOFError" = false ->
  main env fuel = mkM (trace (startup env) ++ [Called manager_start]) (Exc e).
Proof.
  intros Hs Hraise Hcls. unfold main. rewrite (bind_ret _ _ _ Hs).
  assert (Hstart : start_manager env = mkM [Called manager_start] (Exc e)).
  { unfold start_manager, try_except, invoke, ask. cbn [result trace].
    rewrite Hraise, Hcls. reflexivity. }
  rewrite (bind_exc (start_manager env) _ e) by (rewrite Hstart; reflexivity).
  rewrite Hstart. reflexivity.
Qed.


(** Once the launcher is run, [cleanup] is run after it however the
    launcher ends.  A [KeyboardInterrupt] or [SystemExit] of the launcher
    is answered with [launcher.cancel()] and goes no further: [main] ends
    as [cleanup] ends.  Any other exception leaves [main] after [cleanup]
    has returned. *)
Theorem launcher_is_followed_by_cleanup fuel :
  result (startup env) = Ret tt ->
  result (start_manager env) = Ret tt ->
  result (prepare env) = Ret tt ->
  trace (main env fuel)
  = trace (startup env) ++ [Called manager_start] ++ trace (prepare env)
    ++ trace (run_launcher env) ++ trace (cleanup env fuel)
  /\ (forall e,
        raises env LOOP_run_until_complete_launcher 0 = Some e ->
        isinstance e "KeyboardInterrupt" || isinstance e "SystemExit" = true ->
        raises env launcher_cancel 0 = None ->
        trace (run_launcher env)
        = [Called LOOP_run_until_complete_launcher; Called launcher_cancel]
        /\ result (main env fuel) = result (cleanup env fuel))
  /\ (forall e,
        raises env LOOP_run_until_complete_launcher 0 = Some e ->
        isinstance e "KeyboardInterrupt" || isinstance e "SystemExit" = false ->
        result (cleanup env fuel) = Ret tt ->
        result (main env fuel) = Exc e).
Proof.
  intros Hs Hm Hp.
  assert (Hmain : main env fuel
                  = mkM (trace (startup env) ++ [Called manager_start]
                         ++ trace (prepare env)
                         ++ trace (try_finally (run_launcher env)
                                               (cleanup env fuel)))
                        (result (try_finally (run_launcher env)
                                             (cleanup env fuel)))).
  { rewrite (main_after_start fuel Hs Hm), launch_parts.
    rewrite (bind_ret _ _ _ Hp). rewrite (start_manager_returns Hm).
    reflexivity. }
  rewrite Hmain. cbn [trace result].
  rewrite (try_finally_trace _ _ run_launcher_no_spin).
  split; [reflexivity|]. split.
  - intros e Hraise Hcls Hcancel.
    assert (Hrun : run_launcher env
                   = mkM [Called LOOP_run_until_complete_launcher;
                          Called launcher_cancel]
                         (Ret tt)).
    { unfold run_launcher, try_except, invoke, ask. cbn [result trace].
      rewrite Hraise, Hcls. cbn [result trace]. rewrite Hcancel.
      reflexivity. }
    rewrite Hrun. split; [reflexivity|].
    unfold try_finally. cbn [result trace].
    destruct (result (cleanup env fuel)) as [[]| |]; reflexivity.
  - intros e Hraise Hcls Hclean.
    assert (Hrun : run_launcher env
                   = mkM [Called LOOP_run_until_complete_launcher] (Exc e)).
    { unfold run_launcher, try_except, invoke, ask. cbn [result trace].
      rewrite Hraise, Hcls. reflexivity. }
    rewrite Hrun. unfold try_finally. cbn [result trace].
    rewrite Hclean. reflexivity.
Qed.

(** Where a trace of [main] can hold the launcher and the signal handlers. *)
Lemma before_launch_events (P : event -> Prop) :
  (forall c, c <> LOOP_run_until_complete_launcher ->
             (forall sig, c <> LOOP_add_signal_handler sig) ->
             P (Called c)) ->
  Forall P (trace (startup env)) /\ Forall P (trace (start_manager env)).
Proof.
  intros HP. split.
  - unfold startup, register_resources, invoke.
    all_events ltac:(apply HP; discriminate).
  - unfold start_manager, invoke, raise.
    all_events ltac:(apply HP; discriminate).
Qed.

Lemma teardown_events (P : event -> Prop) fuel :
  (forall c, (forall sig, c <> LOOP_add_signal_handler sig) -> P (Called c)) ->
  (forall s, P (Printed s)) ->
  Forall P (trace (try_finally (run_launcher env) (cleanup env fuel))).
Proof.
  intros HP Hprint.
  apply Forall_trace_try_finally.
  { unfold run_launcher, invoke. all_events ltac:(apply HP; discriminate). }
  unfold cleanup, cleanup_body, release, begin_exit, await_tasks,
    dump_pickles, update_spawns, invoke.
  all_events ltac:(first [apply Hprint | apply HP; discriminate]).
  apply drain_events;
    first [exact Hprint | apply HP; discriminate].
Qed.

Lemma launcher_comes_first fuel :
  exists after,
    trace (try_finally (run_launcher env) (cleanup env fuel))
    = Called LOOP_run_until_complete_launcher :: after.
Proof.
  unfold try_finally, run_launcher, try_except, invoke, ask.
  cbn [result trace].
  destruct (raises env LOOP_run_until_complete_launcher 0) as [e|].
  - destruct (isinstance e "KeyboardInterrupt" || isinstance e "SystemExit");
      cbn [result trace].
    + destruct (raises env launcher_cancel 0); eexists; reflexivity.
    + eexists. reflexivity.
  - eexists. reflexivity.
Qed.

Lemma prepare_events (P : event -> Prop) :
  (forall c, c <> LOOP_run_until_complete_launcher -> P (Called c)) ->
  Forall P (trace (prepare env)).
Proof.
  intros HP. unfold prepare, invoke.
  all_events ltac:(apply HP; discriminate).
Qed.

Lemma prepare_installs_handlers :
  platform env <> "win32" ->
  result (prepare env) = Ret tt ->
  trace (prepare env)
  = [Called LOOP_set_exception_handler; Called Overseer_new;
     Called (overseer_start (status_bar (args env)));
     Called (LOOP_create_task_launch (bootstrap (args env))
                                     (pickle (args env)));
     Called activate_hash_server]
    ++ [Called (LOOP_add_signal_handler "SIGINT");
        Called (LOOP_add_signal_handler "SIGTERM")].
Proof.
  intros Hplat Hres. revert Hres. unfold prepare.
  rewrite (bool_decide_eq_false_2 _ Hplat). cbn [negb]. unfold invoke.
  intros H.
  repeat (rewrite result_bind_ask in H; rewrite trace_bind_ask;
          match type of H with
          | context [raises env ?c 0] =>
              destruct (raises env c 0); [discriminate H|]
          end).
  reflexivity.
Qed.

(** On win32 [main] installs no signal handler.  Elsewhere, in every run of
    [main] that gets to run the launcher, the two calls just before
    [LOOP.run_until_complete(launcher)] install the handler for SIGINT and
    then the one for SIGTERM, and [main] installs no other handler, neither
    before nor after. *)
Theorem signal_handlers_unless_win32 fuel :
  (platform env = "win32" ->
   forall sig,
     ~ In (Called (LOOP_add_signal_handler sig)) (trace (main env fuel)))
  /\ (platform env <> "win32" ->
      In (Called LOOP_run_until_complete_launcher) (trace (main env fuel)) ->
      exists before after,
        trace (main env fuel)
        = before
          ++ [Called (LOOP_add_signal_handler "SIGINT");
              Called (LOOP_add_signal_handler "SIGTERM");
              Called LOOP_run_until_complete_launcher]
          ++ after
        /\ forall sig,
             ~ In (Called (LOOP_add_signal_handler sig)) (before ++ after)).
Proof.
  split.
  - intros Hwin sig Hin.
    assert (Hall : Forall (fun ev => ev <> Called (LOOP_add_signal_handler sig))
                          (trace (main env fuel))).
    { unfold main. apply Forall_trace_bind; [|intros _].
      { unfold startup, register_resources, invoke.
        all_events ltac:(discriminate). }
      apply Forall_trace_bind; [|intros _].
      { unfold start_manager, invoke, raise.
        all_events ltac:(discriminate). }
      rewrite launch_parts. apply Forall_trace_bind; [|intros _].
      { unfold prepare. rewrite (bool_decide_eq_true_2 _ Hwin). cbn [negb].
        unfold invoke. all_events ltac:(discriminate). }
      apply Forall_trace_try_finally.
      { unfold run_launcher, invoke. all_events ltac:(discriminate). }
      unfold cleanup, cleanup_body, release, begin_exit, await_tasks,
        dump_pickles, update_spawns, invoke.
      all_events ltac:(discriminate). apply drain_events; discriminate. }
    rewrite List.Forall_forall in Hall. exact (Hall _ Hin eq_refl).
  - intros Hplat Hrun.
    set (early := fun ev : event =>
                    ev <> Called LOOP_run_until_complete_launcher
                    /\ forall sig, ev <> Called (LOOP_add_signal_handler sig)).
    assert (Hearly : Forall early (trace (startup env))
                     /\ Forall early (trace (start_manager env))).
    { apply before_launch_events. intros c Hc Hsig. split.
      - intros [= ->]. apply Hc. reflexivity.
      - intros sig [= ->]. apply (Hsig sig). reflexivity. }
    destruct Hearly as [Hstartup Hstart].
    assert (Hprep : Forall (fun ev => ev <> Called LOOP_run_until_complete_launcher)
                           (trace (prepare env))).
    { apply prepare_events. intros c Hc [= ->]. apply Hc. reflexivity. }
    assert (Hnot : forall l,
               Forall (fun ev => ev <> Called LOOP_run_until_complete_launcher) l ->
               ~ In (Called LOOP_run_until_complete_launcher) l).
    { intros l Hl Hin. rewrite List.Forall_forall in Hl.
      exact (Hl _ Hin eq_refl). }
    assert (Hweak : forall l, Forall early l ->
               Forall (fun ev => ev <> Called LOOP_run_until_complete_launcher) l).
    { intros l Hl. eapply List.Forall_impl; [|exact Hl].
      intros ev [H _]. exact H. }
    (* the start-up and the start of the manager return *)
    destruct (result (startup env)) as [[]|e|] eqn:Hs.
    2:{ exfalso. revert Hrun. unfold main. rewrite (bind_exc _ _ _ Hs).
        apply Hnot, Hweak, Hstartup. }
    2:{ exfalso. revert Hrun. unfold main, mbind, M_bind, bind.
        rewrite Hs. apply Hnot, Hweak, Hstartup. }
    destruct (result (start_manager env)) as [[]|e|] eqn:Hm.
    2:{ exfalso. revert Hrun. unfold main. rewrite (bind_ret _ _ _ Hs).
        rewrite (bind_exc _ _ _ Hm). cbn [trace]. intros Hin.
        apply in_app_or in Hin. destruct Hin as [Hin|Hin];
          revert Hin; apply Hnot, Hweak; assumption. }
    2:{ exfalso. revert Hrun. unfold main. rewrite (bind_ret _ _ _ Hs).
        unfold mbind at 1, M_bind at 1, bind at 1. rewrite Hm.
        cbn [trace]. intros Hin.
        apply in_app_or in Hin. destruct Hin as [Hin|Hin];
          revert Hin; apply Hnot, Hweak; assumption. }
    rewrite (main_after_start fuel Hs Hm) in Hrun |- *. cbn [trace] in Hrun |- *.
    rewrite launch_parts in Hrun |- *.
    (* the preparations return *)
    destruct (result (prepare env)) as [[]|e|] eqn:Hp.
    2:{ exfalso. revert Hrun. rewrite (bind_exc _ _ _ Hp). cbn [trace].
        intros Hin. apply in_app_or in Hin. destruct Hin as [Hin|Hin];
          [revert Hin; apply Hnot, Hweak; assumption|].
        apply in_app_or in Hin. destruct Hin as [Hin|Hin];
          [revert Hin; apply Hnot, Hweak; assumption|].
        revert Hin. apply Hnot. exact Hprep. }
    2:{ exfalso. revert Hrun. unfold mbind, M_bind, bind. rewrite Hp.
        cbn [trace]. intros Hin.
        apply in_app_or in Hin. destruct Hin as [Hin|Hin];
          [revert Hin; apply Hnot, Hweak; assumption|].
        apply in_app_or in Hin. destruct Hin as [Hin|Hin];
          [revert Hin; apply Hnot, Hweak; assumption|].
        revert Hin. apply Hnot. exact Hprep. }
    clear Hrun. rewrite (bind_ret _ _ _ Hp). cbn [trace].
    rewrite (prepare_installs_handlers Hplat Hp).
    destruct (launcher_comes_first fuel) as [after Hafter].
    pose proof (teardown_events
                  (fun ev => forall sig,
                       ev <> Called (LOOP_add_signal_handler sig)) fuel)
      as Hlate.
    rewrite Hafter in Hlate |- *.
    eexists (trace (startup env) ++ trace (start_manager env) ++ [_; _; _; _; _]),
            after.
    split.
    { rewrite <- !app_assoc. reflexivity. }
    intros sig Hin.
    assert (Hl : Forall (fun ev => forall sig,
                             ev <> Called (LOOP_add_signal_handler sig))
                        (Called LOOP_run_until_complete_launcher :: after)).
    { apply Hlate.
      - intros c Hc sig' [= ->]. apply (Hc sig'). reflexivity.
      - discriminate. }
    apply List.Forall_cons_iff in Hl. destruct Hl as [_ Hl].
    rewrite List.Forall_forall in Hl, Hstartup, Hstart.
    rewrite !in_app_iff in Hin.
    destruct Hin as [[Hin|[Hin|Hin]]|Hin].
    + exact (proj2 (Hstartup _ Hin) sig eq_refl).
    + exact (proj2 (Hstart _ Hin) sig eq_refl).
    + simpl in Hin. intuition discriminate.
    + exact (Hl _ Hin sig eq_refl).
Qed.
End Runs.

(** *** The facts on concrete runs *)

Ltac others_return :=
  let c := fresh "c" in let k := fresh "k" in let H := fresh "H" in
  intros c k H; destruct c; try reflexivity;
  try (exfalso; apply H; reflexivity);
  cbn in *;
  repeat match goal with
         | |- context [match ?p with _ => _ end] => destruct p
         end;
  first [reflexivity | exfalso; apply H; reflexivity].

Lemma drain_polls_until_empty_witness :
  drain calm 3 0 = mkM (polls calm 0 2) (Ret tt)
  /\ length (List.filter is_sleep (trace (drain calm 3 0))) = 2.
Proof.
  apply (drain_polls_until_empty calm 2 3 0).
  - reflexivity.
  - reflexivity.
  - reflexivity.
  - lia.
  - intros [|[|j]] Hj; [reflexivity | reflexivity | lia].
  - reflexivity.
Defined.

Lemma cleanup_waits_for_writer_forever_witness :
  result (cleanup never_drains 100) = Spin
  /\ ~ In (Called manager_shutdown) (trace (cleanup never_drains 100)).
Proof.
  apply (cleanup_waits_for_writer_forever never_drains 100).
  - intros c k. reflexivity.
  - reflexivity.
Defined.

Lemma spawn_failure_is_contained_witness :
  result (cleanup spawns_fail 3) = Ret tt
  /\ In (Called (log_warning
                   "A wild {} appeared while updating spawns during exit!"
                   "OSError"))
        (trace (cleanup spawns_fail 3))
  /\ In (Called DB_PROC_queue_empty) (trace (cleanup spawns_fail 3)).
Proof.
  apply (spawn_failure_is_contained spawns_fail 3
           (Exn cOSError "database is locked" None)).
  - others_return.
  - reflexivity.
  - vm_compute. reflexivity.
  - exists 2. split; [lia | reflexivity].
Defined.

Lemma await_failure_is_contained_witness :
  result (cleanup tasks_crash 3) = Ret tt
  /\ In (Called (log_exception "A wild {} appeared during exit!" "ValueError"))
        (trace (cleanup tasks_crash 3))
  /\ In (Called overseer_refresh_dict) (trace (cleanup tasks_crash 3)).
Proof.
  apply (await_failure_is_contained tasks_crash 3
           (Exn cValueError "loop is closed" None)).
  - others_return.
  - reflexivity.
  - vm_compute. reflexivity.
  - vm_compute. reflexivity.
  - exists 2. split; [lia | reflexivity].
Defined.

Lemma await_interrupt_skips_to_release_witness :
  result (cleanup interrupted_again 3) = Exc (Exn cKeyboardInterrupt "" None)
  /\ length (trace (cleanup interrupted_again 3)) = 14.
Proof.
  rewrite (await_interrupt_skips_to_release interrupted_again 3
             (Exn cKeyboardInterrupt "" None)).
  - split; reflexivity.
  - others_return.
  - reflexivity.
  - vm_compute. reflexivity.
  - vm_compute. reflexivity.
Defined.

Lemma shutdown_failure_leaves_sessions_open_witness :
  result (cleanup shutdown_fails 3) = Exc (Exn cOSError "broken pipe" None)
  /\ ~ In (Called LOOP_close) (trace (cleanup shutdown_fails 3)).
Proof.
  destruct (shutdown_failure_leaves_sessions_open shutdown_fails 3
              (Exn cOSError "broken pipe" None))
    as (Hres & _ & _ & _ & Hloop).
  - reflexivity.
  - left. exists 2. split; [lia | reflexivity].
  - split; [exact Hres | exact Hloop].
Defined.

Lemma other_start_failure_propagates_witness :
  result (main start_denied 3) = Exc (Exn cValueError "bad authkey" None).
Proof.
  rewrite (other_start_failure_propagates start_denied 3
             (Exn cValueError "bad authkey" None)).
  - reflexivity.
  - vm_compute. reflexivity.
  - reflexivity.
  - vm_compute. reflexivity.
Defined.


Lemma launcher_is_followed_by_cleanup_witness :
  result (main interrupted 3) = Ret tt.
Proof.
  assert (H1 : result (startup interrupted) = Ret tt)
    by (vm_compute; reflexivity).
  assert (H2 : result (start_manager interrupted) = Ret tt)
    by (vm_compute; reflexivity).
  assert (H3 : result (prepare interrupted) = Ret tt)
    by (vm_compute; reflexivity).
  destruct (launcher_is_followed_by_cleanup interrupted 3 H1 H2 H3)
    as (_ & Hint & _).
  assert (H4 : isinstance (Exn cKeyboardInterrupt "" None) "KeyboardInterrupt"
               || isinstance (Exn cKeyboardInterrupt "" None) "SystemExit"
               = true)
    by (vm_compute; reflexivity).
  destruct (Hint (Exn cKeyboardInterrupt "" None) eq_refl H4 eq_refl)
    as [_ Hres].
  rewrite Hres. vm_compute. reflexivity.
Defined.

Lemma signal_handlers_unless_win32_witness :
  exists before after,
    trace (main calm 3)
    = before
      ++ [Called (LOOP_add_signal_handler "SIGINT");
          Called (LOOP_add_signal_handler "SIGTERM");
          Called LOOP_run_until_complete_launcher]
      ++ after
    /\ forall sig,
         ~ In (Called (LOOP_add_signal_handler sig)) (before ++ after).
Proof.
  apply (proj2 (signal_handlers_unless_win32 calm 3)).
  - discriminate.
  - vm_compute. auto 30.
Defined.

End ScanExtras.

(** ** 12. Facts about the checks of the configuration *)

Module ConfigFacts.
Import Py Config Samples2.

Implicit Types (conf out : gmap string value) (name : string) (v : value).

(** *** Defaults *)

Lemma set_default_lookup conf entry k :
  set_default conf entry !! k
  = match conf !! k with
    | Some v => Some v
    | None => if bool_decide (fst entry = k) then Some (snd entry) else None
    end.
Proof.
  unfold set_default. destruct entry as [k' v']. simpl.
  destruct (conf !! k') as [u|] eqn:Hk'.
  - destruct (conf !! k) as [w|] eqn:Hk; [reflexivity|].
    case_bool_decide; [congruence | reflexivity].
  - case_bool_decide as Heq.
    + subst. rewrite lookup_insert_eq, Hk'. reflexivity.
    + rewrite lookup_insert_ne by exact Heq.
      destruct (conf !! k); reflexivity.
Qed.

Lemma foldl_set_default_lookup (l : list (string * value)) :
  forall conf k,
  foldl set_default conf l !! k
  = match conf !! k with
    | Some v => Some v
    | None => snd <$> List.find (fun entry => bool_decide (fst entry = k)) l
    end.
Proof.
  induction l as [|entry l IH]; intros conf k; simpl.
  - destruct (conf !! k); reflexivity.
  - rewrite IH, set_default_lookup.
    destruct (conf !! k); [reflexivity|].
    destruct (bool_decide (fst entry = k)); reflexivity.
Qed.

Lemma apply_defaults_lookup conf k :
  apply_defaults conf !! k
  = match conf !! k with
    | Some v => Some v
    | None => default_of k
    end.
Proof. apply foldl_set_default_lookup. Qed.

Lemma foldl_set_default_id (l : list (string * value)) conf :
  Forall (fun entry => is_Some (conf !! fst entry)) l ->
  foldl set_default conf l = conf.
Proof.
  induction 1 as [|entry l [v Hv] _ IH]; [reflexivity|].
  simpl. unfold set_default at 2. rewrite Hv. exact IH.
Qed.

(** *** Each step rewrites at most its own setting *)

Lemma getattr_passed conf name v :
  getattr conf name = Passed v <-> conf !! name = Some v.
Proof.
  unfold getattr. destruct (conf !! name); split; intros H;
    try discriminate; congruence.
Qed.

Lemma check_proxies_frame conf out :
  check_proxies conf = Passed out ->
  forall k, k <> "PROXIES" -> out !! k = conf !! k.
Proof.
  unfold check_proxies, getattr. destruct (conf !! "PROXIES") as [p|];
    [|discriminate]. simpl.
  destruct (truthy p); [|intros [= <-]; reflexivity].
  destruct p; try discriminate; unfold py_set; simpl;
    try (destruct (forallb hashable items); [|discriminate]; simpl);
    intros [= <-] k Hk; rewrite ?lookup_insert_ne by congruence; reflexivity.
Qed.

Lemma check_map_bounds_same conf out :
  check_map_bounds conf = Passed out -> out = conf.
Proof.
  unfold check_map_bounds.
  destruct (getattr conf "MAP_START") as [s|]; [|discriminate]. simpl.
  destruct (getitem s 0) as [s0|]; [|discriminate]. simpl.
  destruct (getattr conf "MAP_END") as [e|]; [|discriminate]. simpl.
  destruct (getitem e 0) as [e0|]; [|discriminate]. simpl.
  destruct (py_eq s0 e0); [discriminate|].
  destruct (getitem s 1) as [s1|]; [|discriminate]. simpl.
  destruct (getitem e 1) as [e1|]; [|discriminate]. simpl.
  destruct (py_eq s1 e1); [discriminate|]. congruence.
Qed.

Lemma check_item_limits_frame conf out :
  check_item_limits conf = Passed out ->
  forall k, k <> "ITEM_LIMITS" -> out !! k = conf !! k.
Proof.
  unfold check_item_limits.
  destruct (getattr conf "ITEM_LIMITS") as [il|]; [|discriminate]. simpl.
  destruct (truthy il); [|intros [= <-]; reflexivity].
  destruct (getattr conf "SPIN_POKESTOPS") as [sp|]; [|discriminate]. simpl.
  destruct (truthy sp); intros [= <-] k Hk;
    rewrite ?lookup_insert_ne by congruence; reflexivity.
Qed.

Lemma at_least_frame name floor fallback conf out :
  at_least name floor fallback conf = Passed out ->
  forall k, k <> name -> out !! k = conf !! k.
Proof.
  unfold at_least. intros H k Hk.
  destruct (conf !! name) as [v|].
  - destruct (py_lt v floor) as [[|]|]; try discriminate.
    + injection H as <-. reflexivity.
    + destruct fallback; [|discriminate]. simpl in H. injection H as <-.
      rewrite lookup_insert_ne by congruence. reflexivity.
  - destruct fallback; [|discriminate]. simpl in H. injection H as <-.
    rewrite lookup_insert_ne by congruence. reflexivity.
Qed.

Lemma check_encounter_same conf out :
  check_encounter conf = Passed out -> out = conf.
Proof.
  unfold check_encounter.
  destruct (getattr conf "ENCOUNTER") as [e|]; [|discriminate].
  cbn [mbind checked_bind].
  destruct (py_in e [VNone; VStr "notifying"; VStr "all"]);
    [congruence | discriminate].
Qed.

Lemma set_directory_frame fs conf out :
  set_directory fs conf = Passed out ->
  forall k, k <> "DIRECTORY" -> out !! k = conf !! k.
Proof.
  unfold set_directory.
  destruct (getattr conf "DIRECTORY") as [d|]; [|discriminate]. simpl.
  destruct d; intros [= <-] k Hk;
    rewrite ?lookup_insert_ne by congruence; reflexivity.
Qed.

Lemma set_forced_kill_frame conf out :
  set_forced_kill conf = Passed out ->
  forall k, k <> "FORCED_KILL" -> out !! k = conf !! k.
Proof.
  unfold set_forced_kill.
  destruct (getattr conf "FORCED_KILL") as [f|]; [|discriminate]. simpl.
  destruct f as [|[|]| | | | | | | |]; intros [= <-] k Hk;
    rewrite ?lookup_insert_ne by congruence; reflexivity.
Qed.

Lemma set_coroutines_limit_frame conf out :
  set_coroutines_limit conf = Passed out ->
  forall k, k <> "COROUTINES_LIMIT" -> out !! k = conf !! k.
Proof.
  unfold set_coroutines_limit.
  destruct (getattr conf "COROUTINES_LIMIT") as [l|]; [|discriminate]. simpl.
  destruct (truthy l); [intros [= <-]; reflexivity|].
  destruct (getattr conf "GRID") as [g|]; [|discriminate]. simpl.
  destruct (getitem g 0) as [g0|]; [|discriminate]. simpl.
  destruct (getitem g 1) as [g1|]; [|discriminate]. simpl.
  destruct (py_mul g0 g1) as [p|]; [|discriminate]. simpl.
  intros [= <-] k Hk. rewrite lookup_insert_ne by congruence. reflexivity.
Qed.

(** *** The chain of the steps *)

Lemma sanitize_chain fs conf out :
  sanitize fs conf = Passed out -> chain fs conf out.
Proof.
  unfold sanitize. unfold mbind at 1, checked_bind at 1.
  destruct (check_required _required conf) as [[]|] eqn:H0; [|discriminate].
  unfold mbind at 1, checked_bind at 1.
  destruct (check_proxies (apply_defaults conf)) as [k1|] eqn:H1;
    [|discriminate].
  unfold mbind at 1, checked_bind at 1.
  destruct (check_map_bounds k1) as [k2|] eqn:H2; [|discriminate].
  pose proof (check_map_bounds_same _ _ H2) as ->.
  unfold mbind at 1, checked_bind at 1.
  destruct (check_item_limits k1) as [k3|] eqn:H3; [|discriminate].
  unfold mbind at 1, checked_bind at 1.
  destruct (at_least "SCAN_DELAY" 10 _ k3) as [k4|] eqn:H4; [|discriminate].
  unfold mbind at 1, checked_bind at 1.
  destruct (at_least "SIMULTANEOUS_LOGINS" 1 _ k4) as [k5|] eqn:H5;
    [|discriminate].
  unfold mbind at 1, checked_bind at 1.
  destruct (at_least "SIMULTANEOUS_SIMULATION" 1 _ k5) as [k6|] eqn:H6;
    [|discriminate].
  unfold mbind at 1, checked_bind at 1.
  destruct (check_encounter k6) as [k7|] eqn:H7; [|discriminate].
  pose proof (check_encounter_same _ _ H7) as ->.
  unfold mbind at 1, checked_bind at 1.
  destruct (set_directory fs k6) as [k8|] eqn:H8; [|discriminate].
  unfold mbind at 1, checked_bind at 1.
  destruct (set_forced_kill k8) as [k9|] eqn:H9; [|discriminate].
  intros H10. exact (mkChain fs conf out k1 k3 k4 k5 k6 k8 k9
                             H0 H1 H2 H3 H4 H5 H6 H7 H8 H9 H10).
Qed.

(** Carries a lookup in the final configuration back over the steps that
    do not rewrite the setting looked up. *)
Ltac back_over H :=
  first
    [ rewrite (set_coroutines_limit_frame _ _ H) by discriminate
    | rewrite (set_forced_kill_frame _ _ H) by discriminate
    | rewrite (set_directory_frame _ _ _ H) by discriminate
    | rewrite (at_least_frame _ _ _ _ _ H) by discriminate
    | rewrite (check_item_limits_frame _ _ H) by discriminate
    | rewrite (check_proxies_frame _ _ H) by discriminate ].

(** *** Required settings and defaults *)

Lemma check_required_passes names conf :
  check_required names conf = Passed tt
  <-> Forall (fun name => is_Some (conf !! name)) names.
Proof.
  induction names as [|name names IH]; simpl.
  - split; [constructor | reflexivity].
  - destruct (conf !! name) as [v|] eqn:Hv.
    + rewrite IH. split.
      * intros H. constructor; [eexists; exact Hv | exact H].
      * intros H. exact (Forall_inv_tail H).
    + split; [discriminate|]. intros H. apply Forall_inv in H.
      rewrite Hv in H. destruct H as [? H]. discriminate H.
Qed.

(** The checks stop at the first required setting, in the order
    [DB_ENGINE], [GRID], [MAP_START], [MAP_END], that the config does not
    define, with an [AttributeError] that names it; a config that passes
    defines all four. *)
Theorem missing_required_setting fs conf :
  (forall before name after,
     _required = before ++ name :: after ->
     Forall (fun n => is_Some (conf !! n)) before ->
     conf !! name = None ->
     sanitize fs conf
     = Failed (Exn cAttributeError
                 ("Please set " ++ dquote ++ name ++ dquote ++ " in config")
                 None))
  /\ (forall out,
        sanitize fs conf = Passed out ->
        Forall (fun n => is_Some (conf !! n)) _required).
Proof.
  split.
  - intros before name after Hreq Hbefore Hname.
    assert (Hfail : check_required _required conf
                    = Failed (Exn cAttributeError
                                ("Please set " ++ dquote ++ name ++ dquote
                                 ++ " in config") None)).
    { rewrite Hreq. clear Hreq.
      induction Hbefore as [|n before [v Hv] _ IH]; simpl.
      - rewrite Hname. reflexivity.
      - rewrite Hv. exact IH. }
    unfold sanitize. rewrite Hfail. reflexivity.
  - intros out Hout. destruct (sanitize_chain _ _ _ Hout).
    apply check_required_passes. assumption.
Qed.

Lemma lookup_untouched fs conf out k :
  sanitize fs conf = Passed out ->
  ~ In k rewritten ->
  out !! k = match conf !! k with
             | Some v => Some v
             | None => default_of k
             end.
Proof.
  intros Hout Hk. destruct (sanitize_chain _ _ _ Hout).
  unfold rewritten in Hk. simpl in Hk.
  rewrite (set_coroutines_limit_frame _ _ coroutines_ok) by intuition.
  rewrite (set_forced_kill_frame _ _ forced_kill_ok) by intuition.
  rewrite (set_directory_frame _ _ _ directory_ok) by intuition.
  rewrite (at_least_frame _ _ _ _ _ simulation_ok) by intuition.
  rewrite (at_least_frame _ _ _ _ _ logins_ok) by intuition.
  rewrite (at_least_frame _ _ _ _ _ delay_ok) by intuition.
  rewrite (check_item_limits_frame _ _ items_ok) by intuition.
  rewrite (check_proxies_frame _ _ proxies_ok) by intuition.
  apply apply_defaults_lookup.
Qed.

(** A setting that no check rewrites comes out of the checks as the config
    gave it, and with its default from [_optional] when the config did not
    give it: a default never replaces a value of the config. *)
Theorem defaults_fill_only_gaps fs conf out k :
  sanitize fs conf = Passed out ->
  ~ In k rewritten ->
  out !! k = match conf !! k with
             | Some v => Some v
             | None => default_of k
             end.
Proof. exact (lookup_untouched fs conf out k). Qed.

(** *** The numeric settings *)

Lemma at_least_cases name floor fallback conf out :
  at_least name floor fallback conf = Passed out ->
  (exists u, conf !! name = Some u /\ py_lt u floor = Some false
             /\ out = conf)
  \/ (exists d, fallback = Passed d
                /\ (forall u, conf !! name = Some u -> number u = None)
                /\ out = <[name := d]> conf).
Proof.
  unfold at_least, py_lt. intros H.
  destruct (conf !! name) as [v|].
  - destruct (number v) as [x|] eqn:Hn.
    + destruct (num_lt_int x floor) eqn:Hlt; [discriminate|].
      injection H as <-. left. exists v. rewrite Hn. simpl. rewrite Hlt.
      repeat split.
    + destruct fallback as [d|]; [|discriminate]. simpl in H.
      injection H as <-. right. exists d. repeat split.
      intros u [= <-]. exact Hn.
  - destruct fallback as [d|]; [|discriminate]. simpl in H.
    injection H as <-. right. exists d. repeat split. discriminate.
Qed.

Lemma at_least_post name floor fallback conf out d :
  at_least name floor fallback conf = Passed out ->
  fallback = Passed d -> py_lt d floor = Some false ->
  exists v, out !! name = Some v /\ py_lt v floor = Some false.
Proof.
  intros H Hf Hd. destruct (at_least_cases _ _ _ _ _ H)
    as [(u & Hu & Hlt & ->) | (d' & Hd' & _ & ->)].
  - exists u. split; assumption.
  - rewrite Hf in Hd'. injection Hd' as <-. exists d.
    rewrite lookup_insert_eq. split; [reflexivity | exact Hd].
Qed.

Lemma floors_hold fs conf out :
  sanitize fs conf = Passed out ->
  (exists v, out !! "SCAN_DELAY" = Some v /\ py_lt v 10 = Some false)
  /\ (exists v, out !! "SIMULTANEOUS_LOGINS" = Some v
                /\ py_lt v 1 = Some false)
  /\ (exists v, out !! "SIMULTANEOUS_SIMULATION" = Some v
                /\ py_lt v 1 = Some false).
Proof.
  intros Hout. destruct (sanitize_chain _ _ _ Hout).
  destruct (at_least_post _ _ _ _ _ (VInt 10) delay_ok eq_refl eq_refl)
    as (d & Hd & Hdlt).
  destruct (at_least_post _ _ _ _ _ (VInt 4) logins_ok eq_refl eq_refl)
    as (l & Hl & Hllt).
  destruct (at_least_post _ _ _ _ _ l simulation_ok) as (s & Hs & Hslt).
  { apply getattr_passed. exact Hl. }
  { exact Hllt. }
  split; [|split].
  - exists d. split; [|exact Hdlt].
    back_over coroutines_ok. back_over forced_kill_ok.
    back_over directory_ok. back_over simulation_ok. back_over logins_ok.
    exact Hd.
  - exists l. split; [|exact Hllt].
    back_over coroutines_ok. back_over forced_kill_ok.
    back_over directory_ok. back_over simulation_ok. exact Hl.
  - exists s. split; [|exact Hslt].
    back_over coroutines_ok. back_over forced_kill_ok.
    back_over directory_ok. exact Hs.
Qed.

(** After the checks [SCAN_DELAY], [SIMULTANEOUS_LOGINS] and
    [SIMULTANEOUS_SIMULATION] are all set to numbers, none below its floor
    (10, 1 and 1). *)
Theorem numeric_settings_reach_their_floor fs conf out :
  sanitize fs conf = Passed out ->
  (exists v, out !! "SCAN_DELAY" = Some v /\ py_lt v 10 = Some false)
  /\ (exists v, out !! "SIMULTANEOUS_LOGINS" = Some v
                /\ py_lt v 1 = Some false)
  /\ (exists v, out !! "SIMULTANEOUS_SIMULATION" = Some v
                /\ py_lt v 1 = Some false).
Proof. exact (floors_hold fs conf out). Qed.

Lemma at_least_fallback name floor fallback conf out d :
  at_least name floor fallback conf = Passed out ->
  fallback = Passed d ->
  (forall u, conf !! name = Some u -> number u = None) ->
  out !! name = Some d.
Proof.
  intros H Hf Hnone. destruct (at_least_cases _ _ _ _ _ H)
    as [(u & Hu & Hlt & _) | (d' & Hd' & _ & ->)].
  - exfalso. specialize (Hnone u Hu). unfold py_lt in Hlt.
    rewrite Hnone in Hlt. discriminate Hlt.
  - rewrite Hf in Hd'. injection Hd' as <-. apply lookup_insert_eq.
Qed.

Lemma at_least_keeps name floor fallback conf out u :
  at_least name floor fallback conf = Passed out ->
  conf !! name = Some u -> number u <> None ->
  out !! name = Some u.
Proof.
  intros H Hu Hnum. destruct (at_least_cases _ _ _ _ _ H)
    as [(u' & Hu' & _ & ->) | (d' & _ & Hnone & _)].
  - exact Hu.
  - destruct (Hnum (Hnone u Hu)).
Qed.

Lemma before_delay fs conf out k :
  sanitize fs conf = Passed out ->
  k <> "PROXIES" -> k <> "ITEM_LIMITS" ->
  forall c1 c3,
  check_proxies (apply_defaults conf) = Passed c1 ->
  check_item_limits c1 = Passed c3 ->
  c3 !! k = match conf !! k with
            | Some v => Some v
            | None => default_of k
            end.
Proof.
  intros _ H1 H2 c1 c3 Hp Hi.
  rewrite (check_item_limits_frame _ _ Hi) by exact H2.
  rewrite (check_proxies_frame _ _ Hp) by exact H1.
  apply apply_defaults_lookup.
Qed.

(** What the numeric settings fall back to.  When the config does not give
    [SCAN_DELAY], or gives something that is not a number ([None], say),
    it becomes 10; [SIMULTANEOUS_LOGINS] becomes 4;
    [SIMULTANEOUS_SIMULATION] takes the value that [SIMULTANEOUS_LOGINS]
    has by then.  A number that the config gives, and that passes, is
    kept. *)
Theorem numeric_settings_fall_back fs conf out :
  sanitize fs conf = Passed out ->
  ((forall u, conf !! "SCAN_DELAY" = Some u -> number u = None) ->
   out !! "SCAN_DELAY" = Some (VInt 10))
  /\ ((forall u, conf !! "SIMULTANEOUS_LOGINS" = Some u -> number u = None) ->
      out !! "SIMULTANEOUS_LOGINS" = Some (VInt 4))
  /\ ((forall u, conf !! "SIMULTANEOUS_SIMULATION" = Some u ->
                 number u = None) ->
      out !! "SIMULTANEOUS_SIMULATION" = out !! "SIMULTANEOUS_LOGINS")
  /\ (forall name u,
        In name ["SCAN_DELAY"; "SIMULTANEOUS_LOGINS";
                 "SIMULTANEOUS_SIMULATION"] ->
        conf !! name = Some u -> number u <> None ->
        out !! name = Some u).
Proof.
  intros Hout. destruct (sanitize_chain _ _ _ Hout).
  assert (Hd : c3 !! "SCAN_DELAY" = conf !! "SCAN_DELAY").
  { rewrite (before_delay fs conf out "SCAN_DELAY" Hout) with (c1 := c1)
      by (assumption || discriminate).
    destruct (conf !! "SCAN_DELAY"); reflexivity. }
  assert (Hl : c4 !! "SIMULTANEOUS_LOGINS" = conf !! "SIMULTANEOUS_LOGINS").
  { back_over delay_ok.
    rewrite (before_delay fs conf out "SIMULTANEOUS_LOGINS" Hout)
      with (c1 := c1) by (assumption || discriminate).
    destruct (conf !! "SIMULTANEOUS_LOGINS"); reflexivity. }
  assert (Hs : c5 !! "SIMULTANEOUS_SIMULATION"
               = conf !! "SIMULTANEOUS_SIMULATION").
  { back_over logins_ok. back_over delay_ok.
    rewrite (before_delay fs conf out "SIMULTANEOUS_SIMULATION" Hout)
      with (c1 := c1) by (assumption || discriminate).
    destruct (conf !! "SIMULTANEOUS_SIMULATION"); reflexivity. }
  assert (Hod : out !! "SCAN_DELAY" = c4 !! "SCAN_DELAY").
  { back_over coroutines_ok. back_over forced_kill_ok.
    back_over directory_ok. back_over simulation_ok. back_over logins_ok.
    reflexivity. }
  assert (Hol : out !! "SIMULTANEOUS_LOGINS" = c5 !! "SIMULTANEOUS_LOGINS").
  { back_over coroutines_ok. back_over forced_kill_ok.
    back_over directory_ok. back_over simulation_ok. reflexivity. }
  assert (Hos : out !! "SIMULTANEOUS_SIMULATION"
                = c6 !! "SIMULTANEOUS_SIMULATION").
  { back_over coroutines_ok. back_over forced_kill_ok.
    back_over directory_ok. reflexivity. }
  split; [|split; [|split]].
  - intros Hnone. rewrite Hod.
    apply (at_least_fallback _ _ _ _ _ _ delay_ok eq_refl).
    rewrite Hd. exact Hnone.
  - intros Hnone. rewrite Hol.
    apply (at_least_fallback _ _ _ _ _ _ logins_ok eq_refl).
    rewrite Hl. exact Hnone.
  - intros Hnone. rewrite Hos, Hol.
    destruct (at_least_cases _ _ _ _ _ simulation_ok)
      as [(u & Hu & Hlt & _) | (d & Hd3 & _ & ->)].
    + exfalso. rewrite Hs in Hu. specialize (Hnone u Hu).
      unfold py_lt in Hlt. rewrite Hnone in Hlt. discriminate Hlt.
    + rewrite lookup_insert_eq. apply getattr_passed in Hd3.
      symmetry. exact Hd3.
  - intros name u [<-|[<-|[<-|[]]]] Hu Hnum.
    + rewrite Hod. apply (at_least_keeps _ _ _ _ _ _ delay_ok); [|exact Hnum].
      rewrite Hd. exact Hu.
    + rewrite Hol. apply (at_least_keeps _ _ _ _ _ _ logins_ok); [|exact Hnum].
      rewrite Hl. exact Hu.
    + rewrite Hos.
      apply (at_least_keeps _ _ _ _ _ _ simulation_ok); [|exact Hnum].
      rewrite Hs. exact Hu.
Qed.

Lemma numeric_step fs conf out name floor :
  sanitize fs conf = Passed out ->
  In (name, floor) [("SCAN_DELAY", 10%Z); ("SIMULTANEOUS_LOGINS", 1%Z);
                    ("SIMULTANEOUS_SIMULATION", 1%Z)] ->
  exists c c' fallback,
    at_least name floor fallback c = Passed c'
    /\ c !! name = conf !! name
    /\ out !! name = c' !! name.
Proof.
  intros Hout Hin. destruct (sanitize_chain _ _ _ Hout).
  destruct Hin as [[= <- <-]|[[= <- <-]|[[= <- <-]|[]]]].
  - exists c3, c4, (Passed (VInt 10)). split; [assumption|]. split.
    + rewrite (before_delay fs conf out "SCAN_DELAY" Hout) with (c1 := c1)
        by (assumption || discriminate).
      destruct (conf !! "SCAN_DELAY"); reflexivity.
    + back_over coroutines_ok. back_over forced_kill_ok.
      back_over directory_ok. back_over simulation_ok. back_over logins_ok.
      reflexivity.
  - exists c4, c5, (Passed (VInt 4)). split; [assumption|]. split.
    + back_over delay_ok.
      rewrite (before_delay fs conf out "SIMULTANEOUS_LOGINS" Hout)
        with (c1 := c1) by (assumption || discriminate).
      destruct (conf !! "SIMULTANEOUS_LOGINS"); reflexivity.
    + back_over coroutines_ok. back_over forced_kill_ok.
      back_over directory_ok. back_over simulation_ok. reflexivity.
  - exists c5, c6, (getattr c5 "SIMULTANEOUS_LOGINS").
    split; [assumption|]. split.
    + back_over logins_ok. back_over delay_ok.
      rewrite (before_delay fs conf out "SIMULTANEOUS_SIMULATION" Hout)
        with (c1 := c1) by (assumption || discriminate).
      destruct (conf !! "SIMULTANEOUS_SIMULATION"); reflexivity.
    + back_over coroutines_ok. back_over forced_kill_ok.
      back_over directory_ok. reflexivity.
Qed.

(** A [SCAN_DELAY] below 10, or a [SIMULTANEOUS_LOGINS] or
    [SIMULTANEOUS_SIMULATION] below 1, makes the checks fail: no config
    that gives one passes. *)
Theorem number_below_floor_is_rejected fs conf name floor u :
  In (name, floor) [("SCAN_DELAY", 10%Z); ("SIMULTANEOUS_LOGINS", 1%Z);
                    ("SIMULTANEOUS_SIMULATION", 1%Z)] ->
  conf !! name = Some u ->
  py_lt u floor = Some true ->
  exists e, sanitize fs conf = Failed e.
Proof.
  intros Hin Hu Hlt. destruct (sanitize fs conf) as [out|e] eqn:Hout;
    [exfalso | exists e; reflexivity].
  destruct (numeric_step _ _ _ _ _ Hout Hin) as (c & c' & fb & Hstep & Hc & _).
  rewrite <- Hc in Hu. unfold at_least in Hstep.
  rewrite Hu, Hlt in Hstep. discriminate Hstep.
Qed.

(** *** Proxies *)

Lemma check_proxies_post conf out :
  check_proxies conf = Passed out ->
  exists p,
    conf !! "PROXIES" = Some p
    /\ out !! "PROXIES"
       = Some (if truthy p then
                 match p with
                 | VStr _ => VSet [p]
                 | VTuple l | VList l => VSet (distinct l)
                 | _ => p
                 end
               else p)
    /\ (truthy p = true ->
        match p with
        | VStr _ | VSet _ | VTuple _ | VList _ => True
        | _ => False
        end).
Proof.
  unfold check_proxies, getattr. destruct (conf !! "PROXIES") as [p|] eqn:Hp;
    [|discriminate]. cbn [mbind checked_bind].
  intros H. exists p. split; [reflexivity|].
  destruct (truthy p) eqn:Ht.
  - destruct p; try discriminate H; unfold py_set in H;
      try (destruct (forallb hashable items); [|discriminate H]);
      cbn [mbind checked_bind] in H; injection H as <-;
      rewrite ?lookup_insert_eq, ?Hp; split; auto.
  - injection H as <-. rewrite Hp. split; [reflexivity | discriminate].
Qed.

Lemma proxies_shape fs conf out :
  sanitize fs conf = Passed out ->
  exists p,
    out !! "PROXIES" = Some p
    /\ (truthy p = false \/ exists members, p = VSet members)
    /\ (forall s, conf !! "PROXIES" = Some (VStr s) -> s <> "" ->
                  p = VSet [VStr s])
    /\ (forall l,
          conf !! "PROXIES" = Some (VList l)
          \/ conf !! "PROXIES" = Some (VTuple l) ->
          l <> [] -> p = VSet (distinct l))
    /\ (conf !! "PROXIES" = None -> p = VNone).
Proof.
  intros Hout. destruct (sanitize_chain _ _ _ Hout).
  destruct (check_proxies_post _ _ proxies_ok) as (p & Hp & Hnew & Hkind).
  rewrite apply_defaults_lookup in Hp.
  assert (Hfinal : out !! "PROXIES" = c1 !! "PROXIES").
  { back_over coroutines_ok. back_over forced_kill_ok.
    back_over directory_ok. back_over simulation_ok. back_over logins_ok.
    back_over delay_ok. back_over items_ok. reflexivity. }
  rewrite <- Hfinal in Hnew. eexists. split; [exact Hnew|].
  split; [|split; [|split]].
  - destruct (truthy p) eqn:Ht; [|left; exact Ht].
    right. specialize (Hkind eq_refl).
    destruct p; try contradiction; eexists; reflexivity.
  - intros s Hs Hne. rewrite Hs in Hp. injection Hp as <-.
    simpl. rewrite bool_decide_eq_false_2 by exact Hne. reflexivity.
  - intros l [Hl|Hl] Hne; rewrite Hl in Hp; injection Hp as <-; simpl;
      rewrite bool_decide_eq_false_2 by exact Hne; reflexivity.
  - intros Hnone. rewrite Hnone in Hp. vm_compute in Hp.
    injection Hp as <-. reflexivity.
Qed.

(** After the checks [PROXIES] is a set, unless it is empty or [None] as
    the config (or the default) had it: a string becomes the set of that
    one string, a list or a tuple the set of its items, each once. *)
Theorem proxies_become_a_set fs conf out :
  sanitize fs conf = Passed out ->
  exists p,
    out !! "PROXIES" = Some p
    /\ (truthy p = false \/ exists members, p = VSet members)
    /\ (forall s, conf !! "PROXIES" = Some (VStr s) -> s <> "" ->
                  p = VSet [VStr s])
    /\ (forall l,
          conf !! "PROXIES" = Some (VList l)
          \/ conf !! "PROXIES" = Some (VTuple l) ->
          l <> [] -> p = VSet (distinct l))
    /\ (conf !! "PROXIES" = None -> p = VNone).
Proof. exact (proxies_shape fs conf out). Qed.

(** *** The corners of the map *)

(** A config passes only if the first coordinates of [MAP_START] and
    [MAP_END] differ and their second coordinates differ. *)
Theorem map_corners_differ fs conf out :
  sanitize fs conf = Passed out ->
  exists map_start map_end start0 end0 start1 end1,
    conf !! "MAP_START" = Some map_start
    /\ conf !! "MAP_END" = Some map_end
    /\ out !! "MAP_START" = Some map_start
    /\ out !! "MAP_END" = Some map_end
    /\ getitem map_start 0 = Passed start0
    /\ getitem map_end 0 = Passed end0
    /\ getitem map_start 1 = Passed start1
    /\ getitem map_end 1 = Passed end1
    /\ py_eq start0 end0 = false
    /\ py_eq start1 end1 = false.
Proof.
  intros Hout. destruct (sanitize_chain _ _ _ Hout).
  assert (Hs : out !! "MAP_START" = conf !! "MAP_START"
               /\ c1 !! "MAP_START" = conf !! "MAP_START").
  { assert (H1 : c1 !! "MAP_START" = conf !! "MAP_START").
    { back_over proxies_ok. rewrite apply_defaults_lookup.
      destruct (conf !! "MAP_START"); reflexivity. }
    split; [|exact H1].
    back_over coroutines_ok. back_over forced_kill_ok.
    back_over directory_ok. back_over simulation_ok. back_over logins_ok.
    back_over delay_ok. back_over items_ok. exact H1. }
  assert (He : out !! "MAP_END" = conf !! "MAP_END"
               /\ c1 !! "MAP_END" = conf !! "MAP_END").
  { assert (H1 : c1 !! "MAP_END" = conf !! "MAP_END").
    { back_over proxies_ok. rewrite apply_defaults_lookup.
      destruct (conf !! "MAP_END"); reflexivity. }
    split; [|exact H1].
    back_over coroutines_ok. back_over forced_kill_ok.
    back_over directory_ok. back_over simulation_ok. back_over logins_ok.
    back_over delay_ok. back_over items_ok. exact H1. }
  destruct Hs as [Hos Hcs]. destruct He as [Hoe Hce].
  revert bounds_ok. unfold check_map_bounds, getattr.
  rewrite Hcs, Hce.
  destruct (conf !! "MAP_START") as [s|]; [|discriminate].
  cbn [mbind checked_bind].
  destruct (getitem s 0) as [s0|] eqn:Hs0; [|discriminate].
  cbn [mbind checked_bind].
  destruct (conf !! "MAP_END") as [e|]; [|discriminate].
  cbn [mbind checked_bind].
  destruct (getitem e 0) as [e0|] eqn:He0; [|discriminate].
  cbn [mbind checked_bind].
  destruct (py_eq s0 e0) eqn:H0; [discriminate|].
  destruct (getitem s 1) as [s1|] eqn:Hs1; [|discriminate].
  cbn [mbind checked_bind].
  destruct (getitem e 1) as [e1|] eqn:He1; [|discriminate].
  cbn [mbind checked_bind].
  destruct (py_eq s1 e1) eqn:H1; [discriminate|]. intros _.
  exists s, e, s0, e0, s1, e1. repeat split; assumption.
Qed.

(** *** Item limits, encounters, directory, forced kill *)

Lemma limits_imply_spin fs conf out :
  sanitize fs conf = Passed out ->
  forall limits,
    out !! "ITEM_LIMITS" = Some limits -> truthy limits = true ->
    exists spin, out !! "SPIN_POKESTOPS" = Some spin /\ truthy spin = true.
Proof.
  intros Hout limits. destruct (sanitize_chain _ _ _ Hout).
  assert (Hl : out !! "ITEM_LIMITS" = c3 !! "ITEM_LIMITS").
  { back_over coroutines_ok. back_over forced_kill_ok.
    back_over directory_ok. back_over simulation_ok. back_over logins_ok.
    back_over delay_ok. reflexivity. }
  assert (Hs : out !! "SPIN_POKESTOPS" = c1 !! "SPIN_POKESTOPS").
  { back_over coroutines_ok. back_over forced_kill_ok.
    back_over directory_ok. back_over simulation_ok. back_over logins_ok.
    back_over delay_ok. back_over items_ok. reflexivity. }
  rewrite Hl, Hs. revert items_ok. unfold check_item_limits, getattr.
  destruct (c1 !! "ITEM_LIMITS") as [il|] eqn:Hil; [|discriminate].
  cbn [mbind checked_bind]. destruct (truthy il) eqn:Hti.
  - destruct (c1 !! "SPIN_POKESTOPS") as [sp|]; [|discriminate].
    cbn [mbind checked_bind]. destruct (truthy sp) eqn:Hts.
    + intros [= <-] _ _. exists sp. split; [reflexivity | exact Hts].
    + intros [= <-]. rewrite lookup_insert_eq. intros [= <-]. discriminate.
  - intros [= <-]. rewrite Hil. intros [= <-]. congruence.
Qed.

(** After the checks [ITEM_LIMITS] is set only if [SPIN_POKESTOPS] is: the
    limits of a config that does not spin PokeStops are replaced by
    [None]. *)
Theorem item_limits_need_spinning fs conf out :
  sanitize fs conf = Passed out ->
  forall limits,
    out !! "ITEM_LIMITS" = Some limits -> truthy limits = true ->
    exists spin, out !! "SPIN_POKESTOPS" = Some spin /\ truthy spin = true.
Proof. exact (limits_imply_spin fs conf out). Qed.

Lemma py_eq_none v : py_eq v VNone = true -> v = VNone.
Proof. destruct v; simpl; try discriminate. reflexivity. Qed.

Lemma py_eq_str v s : py_eq v (VStr s) = true -> v = VStr s.
Proof.
  destruct v; simpl; try discriminate.
  intros H. apply bool_decide_eq_true in H. congruence.
Qed.

Lemma encounter_choices fs conf out :
  sanitize fs conf = Passed out ->
  out !! "ENCOUNTER" = Some VNone
  \/ out !! "ENCOUNTER" = Some (VStr "notifying")
  \/ out !! "ENCOUNTER" = Some (VStr "all").
Proof.
  intros Hout. destruct (sanitize_chain _ _ _ Hout).
  assert (He : out !! "ENCOUNTER" = c6 !! "ENCOUNTER").
  { back_over coroutines_ok. back_over forced_kill_ok.
    back_over directory_ok. reflexivity. }
  rewrite He. revert encounter_ok. unfold check_encounter, getattr.
  destruct (c6 !! "ENCOUNTER") as [e|]; [|discriminate].
  cbn [mbind checked_bind]. unfold py_in. cbn [existsb].
  destruct (py_eq e VNone) eqn:H1.
  { apply py_eq_none in H1. subst. auto. }
  destruct (py_eq e (VStr "notifying")) eqn:H2.
  { apply py_eq_str in H2. subst. auto. }
  destruct (py_eq e (VStr "all")) eqn:H3.
  { apply py_eq_str in H3. subst. auto. }
  discriminate.
Qed.

(** A config passes only if [ENCOUNTER] is [None] (also by default),
    ['notifying'] or ['all']. *)
Theorem encounter_is_one_of_three fs conf out :
  sanitize fs conf = Passed out ->
  out !! "ENCOUNTER" = Some VNone
  \/ out !! "ENCOUNTER" = Some (VStr "notifying")
  \/ out !! "ENCOUNTER" = Some (VStr "all").
Proof. exact (encounter_choices fs conf out). Qed.

Lemma directory_kill_shape fs conf out :
  sanitize fs conf = Passed out ->
  (exists d,
     out !! "DIRECTORY" = Some d /\ d <> VNone
     /\ (conf !! "DIRECTORY" = None \/ conf !! "DIRECTORY" = Some VNone ->
         d = VStr (if fs then ".." else "")))
  /\ (exists f,
        out !! "FORCED_KILL" = Some f /\ f <> VBool true
        /\ (conf !! "FORCED_KILL" = Some (VBool true) ->
            f = VTuple [VStr "0.57.2"; VStr "0.55.0"; VStr "0.53.0";
                        VStr "0.53.1"; VStr "0.53.2"])).
Proof.
  intros Hout. destruct (sanitize_chain _ _ _ Hout).
  assert (Hd6 : c6 !! "DIRECTORY" = match conf !! "DIRECTORY" with
                                    | Some v => Some v
                                    | None => Some VNone
                                    end).
  { back_over simulation_ok. back_over logins_ok. back_over delay_ok.
    back_over items_ok. back_over proxies_ok.
    rewrite apply_defaults_lookup. destruct (conf !! "DIRECTORY");
      reflexivity. }
  assert (Hf8 : c8 !! "FORCED_KILL" = match conf !! "FORCED_KILL" with
                                      | Some v => Some v
                                      | None => Some VNone
                                      end).
  { back_over directory_ok. back_over simulation_ok. back_over logins_ok.
    back_over delay_ok. back_over items_ok. back_over proxies_ok.
    rewrite apply_defaults_lookup. destruct (conf !! "FORCED_KILL");
      reflexivity. }
  split.
  - assert (Hd : out !! "DIRECTORY" = c8 !! "DIRECTORY").
    { back_over coroutines_ok. back_over forced_kill_ok. reflexivity. }
    rewrite Hd. revert directory_ok. unfold set_directory, getattr.
    rewrite Hd6.
    destruct (conf !! "DIRECTORY") as [d|] eqn:Hcd; cbn [mbind checked_bind].
    + destruct d; intros [= <-];
        rewrite ?lookup_insert_eq, ?Hd6; eexists;
        (split; [reflexivity|]); (split; [discriminate|]);
        intros [H|H]; try discriminate H; try reflexivity.
    + intros [= <-]. rewrite lookup_insert_eq. eexists.
      split; [reflexivity|]. split; [discriminate|]. reflexivity.
  - assert (Hf : out !! "FORCED_KILL" = c9 !! "FORCED_KILL").
    { back_over coroutines_ok. reflexivity. }
    rewrite Hf. revert forced_kill_ok. unfold set_forced_kill, getattr.
    rewrite Hf8.
    destruct (conf !! "FORCED_KILL") as [f|] eqn:Hcf; cbn [mbind checked_bind].
    + destruct f as [|[|]| | | | | | | |]; intros [= <-];
        rewrite ?lookup_insert_eq, ?Hf8; eexists;
        (split; [reflexivity|]); (split; [discriminate|]);
        intros H; try discriminate H; reflexivity.
    + intros [= <-]. rewrite Hf8. eexists.
      split; [reflexivity|]. split; discriminate.
Qed.

(** After the checks [DIRECTORY] is never [None] -- a config without one
    gets ['..'] when [../pickles] exists and the empty string otherwise --
    and [FORCED_KILL] is never [True]: it has become the tuple of the five
    versions. *)
Theorem directory_and_forced_kill_are_resolved fs conf out :
  sanitize fs conf = Passed out ->
  (exists d,
     out !! "DIRECTORY" = Some d /\ d <> VNone
     /\ (conf !! "DIRECTORY" = None \/ conf !! "DIRECTORY" = Some VNone ->
         d = VStr (if fs then ".." else "")))
  /\ (exists f,
        out !! "FORCED_KILL" = Some f /\ f <> VBool true
        /\ (conf !! "FORCED_KILL" = Some (VBool true) ->
            f = VTuple [VStr "0.57.2"; VStr "0.55.0"; VStr "0.53.0";
                        VStr "0.53.1"; VStr "0.53.2"])).
Proof. exact (directory_kill_shape fs conf out). Qed.

(** *** The limit on coroutines *)

Lemma coroutines_shape fs conf out :
  sanitize fs conf = Passed out ->
  exists limit,
    out !! "COROUTINES_LIMIT" = Some limit
    /\ (forall u, conf !! "COROUTINES_LIMIT" = Some u -> truthy u = true ->
                  limit = u)
    /\ ((forall u, conf !! "COROUTINES_LIMIT" = Some u -> truthy u = false) ->
        exists grid columns rows,
          conf !! "GRID" = Some grid
          /\ getitem grid 0 = Passed columns
          /\ getitem grid 1 = Passed rows
          /\ py_mul columns rows = Passed limit).
Proof.
  intros Hout. destruct (sanitize_chain _ _ _ Hout).
  assert (Hl : c9 !! "COROUTINES_LIMIT"
               = match conf !! "COROUTINES_LIMIT" with
                 | Some v => Some v
                 | None => Some VNone
                 end).
  { back_over forced_kill_ok. back_over directory_ok.
    back_over simulation_ok. back_over logins_ok. back_over delay_ok.
    back_over items_ok. back_over proxies_ok.
    rewrite apply_defaults_lookup. destruct (conf !! "COROUTINES_LIMIT");
      reflexivity. }
  assert (Hg : c9 !! "GRID" = conf !! "GRID").
  { back_over forced_kill_ok. back_over directory_ok.
    back_over simulation_ok. back_over logins_ok. back_over delay_ok.
    back_over items_ok. back_over proxies_ok.
    rewrite apply_defaults_lookup. destruct (conf !! "GRID"); reflexivity. }
  revert coroutines_ok. unfold set_coroutines_limit, getattr.
  rewrite Hl, Hg.
  destruct (conf !! "COROUTINES_LIMIT") as [u|] eqn:Hu;
    cbn [mbind checked_bind].
  - destruct (truthy u) eqn:Ht.
    + intros [= <-]. exists u. rewrite Hl. split; [reflexivity|]. split.
      * intros u' [= <-] _. reflexivity.
      * intros Hfalse. specialize (Hfalse u eq_refl). congruence.
    + destruct (conf !! "GRID") as [g|]; [|discriminate].
      cbn [mbind checked_bind].
      destruct (getitem g 0) as [g0|] eqn:H0; [|discriminate].
      cbn [mbind checked_bind].
      destruct (getitem g 1) as [g1|] eqn:H1; [|discriminate].
      cbn [mbind checked_bind].
      destruct (py_mul g0 g1) as [p|] eqn:Hp; [|discriminate].
      cbn [mbind checked_bind]. intros [= <-]. exists p.
      rewrite lookup_insert_eq. split; [reflexivity|]. split.
      * intros u' [= <-] Ht'. congruence.
      * intros _. exists g, g0, g1. repeat split; assumption.
  - cbn [truthy].
    destruct (conf !! "GRID") as [g|]; [|discriminate].
    cbn [mbind checked_bind].
    destruct (getitem g 0) as [g0|] eqn:H0; [|discriminate].
    cbn [mbind checked_bind].
    destruct (getitem g 1) as [g1|] eqn:H1; [|discriminate].
    cbn [mbind checked_bind].
    destruct (py_mul g0 g1) as [p|] eqn:Hp; [|discriminate].
    cbn [mbind checked_bind]. intros [= <-]. exists p.
    rewrite lookup_insert_eq. split; [reflexivity|]. split.
    + discriminate.
    + intros _. exists g, g0, g1. repeat split; assumption.
Qed.

(** After the checks [COROUTINES_LIMIT] is the one of the config when that
    is set and not zero, and otherwise the product of the two items of
    [GRID]. *)
Theorem coroutines_limit_defaults_to_grid_area fs conf out :
  sanitize fs conf = Passed out ->
  exists limit,
    out !! "COROUTINES_LIMIT" = Some limit
    /\ (forall u, conf !! "COROUTINES_LIMIT" = Some u -> truthy u = true ->
                  limit = u)
    /\ ((forall u, conf !! "COROUTINES_LIMIT" = Some u -> truthy u = false) ->
        exists grid columns rows,
          conf !! "GRID" = Some grid
          /\ getitem grid 0 = Passed columns
          /\ getitem grid 1 = Passed rows
          /\ py_mul columns rows = Passed limit).
Proof. exact (coroutines_shape fs conf out). Qed.

(** *** Checking a checked configuration *)

Lemma keeps_from_frame key conf out :
  (forall k, k <> key -> out !! k = conf !! k) ->
  (is_Some (conf !! key) -> is_Some (out !! key)) ->
  forall k, is_Some (conf !! k) -> is_Some (out !! k).
Proof.
  intros Hframe Hkey k Hk. destruct (decide (k = key)) as [->|Hne].
  - apply Hkey. exact Hk.
  - rewrite (Hframe k Hne). exact Hk.
Qed.

Lemma check_proxies_keeps conf out :
  check_proxies conf = Passed out ->
  forall k, is_Some (conf !! k) -> is_Some (out !! k).
Proof.
  intros H. apply (keeps_from_frame "PROXIES").
  - apply check_proxies_frame. exact H.
  - intros _. destruct (check_proxies_post _ _ H) as (p & _ & -> & _).
    eexists. reflexivity.
Qed.

Lemma check_item_limits_keeps conf out :
  check_item_limits conf = Passed out ->
  forall k, is_Some (conf !! k) -> is_Some (out !! k).
Proof.
  intros H. apply (keeps_from_frame "ITEM_LIMITS").
  - apply check_item_limits_frame. exact H.
  - revert H. unfold check_item_limits, getattr.
    destruct (conf !! "ITEM_LIMITS") as [il|] eqn:Hil; [|discriminate].
    cbn [mbind checked_bind]. destruct (truthy il).
    + destruct (conf !! "SPIN_POKESTOPS") as [sp|]; [|discriminate].
      cbn [mbind checked_bind]. destruct (truthy sp); intros [= <-] Hs.
      * rewrite Hil. eauto.
      * rewrite lookup_insert_eq. eauto.
    + intros [= <-] Hs. rewrite Hil. eauto.
Qed.

Lemma at_least_keeps_all name floor fallback conf out :
  at_least name floor fallback conf = Passed out ->
  forall k, is_Some (conf !! k) -> is_Some (out !! k).
Proof.
  intros H. apply (keeps_from_frame name).
  - apply (at_least_frame _ _ _ _ _ H).
  - intros Hs. destruct (at_least_cases _ _ _ _ _ H)
      as [(u & Hu & _ & ->) | (d & _ & _ & ->)].
    + exact Hs.
    + rewrite lookup_insert_eq. eexists. reflexivity.
Qed.

Lemma set_directory_keeps fs conf out :
  set_directory fs conf = Passed out ->
  forall k, is_Some (conf !! k) -> is_Some (out !! k).
Proof.
  intros H. apply (keeps_from_frame "DIRECTORY").
  - apply (set_directory_frame _ _ _ H).
  - revert H. unfold set_directory, getattr.
    destruct (conf !! "DIRECTORY") as [d|] eqn:Hd; [|discriminate].
    cbn [mbind checked_bind].
    destruct d; intros [= <-] Hs; rewrite ?lookup_insert_eq, ?Hd; eauto.
Qed.

Lemma set_forced_kill_keeps conf out :
  set_forced_kill conf = Passed out ->
  forall k, is_Some (conf !! k) -> is_Some (out !! k).
Proof.
  intros H. apply (keeps_from_frame "FORCED_KILL").
  - apply (set_forced_kill_frame _ _ H).
  - revert H. unfold set_forced_kill, getattr.
    destruct (conf !! "FORCED_KILL") as [f|] eqn:Hf; [|discriminate].
    cbn [mbind checked_bind].
    destruct f as [|[|]| | | | | | | |]; intros [= <-] Hs;
      rewrite ?lookup_insert_eq, ?Hf; eauto.
Qed.

Lemma set_coroutines_limit_keeps conf out :
  set_coroutines_limit conf = Passed out ->
  forall k, is_Some (conf !! k) -> is_Some (out !! k).
Proof.
  intros H. apply (keeps_from_frame "COROUTINES_LIMIT").
  - apply (set_coroutines_limit_frame _ _ H).
  - intros _.
    revert H. unfold set_coroutines_limit, getattr.
    destruct (conf !! "COROUTINES_LIMIT") as [l|] eqn:Hl; [|discriminate].
    cbn [mbind checked_bind].
    destruct (truthy l); [intros [= <-]; rewrite Hl; eauto|].
    destruct (conf !! "GRID") as [g|]; [|discriminate].
    cbn [mbind checked_bind].
    destruct (getitem g 0) as [g0|]; [|discriminate].
    cbn [mbind checked_bind].
    destruct (getitem g 1) as [g1|]; [|discriminate].
    cbn [mbind checked_bind].
    destruct (py_mul g0 g1) as [p|]; [|discriminate].
    cbn [mbind checked_bind]. intros [= <-].
    rewrite lookup_insert_eq. eauto.
Qed.

(** No check removes a setting. *)
Lemma settings_stay fs conf out k :
  sanitize fs conf = Passed out ->
  is_Some (apply_defaults conf !! k) -> is_Some (out !! k).
Proof.
  intros Hout Hk. destruct (sanitize_chain _ _ _ Hout).
  apply (set_coroutines_limit_keeps _ _ coroutines_ok).
  apply (set_forced_kill_keeps _ _ forced_kill_ok).
  apply (set_directory_keeps _ _ _ directory_ok).
  apply (at_least_keeps_all _ _ _ _ _ simulation_ok).
  apply (at_least_keeps_all _ _ _ _ _ logins_ok).
  apply (at_least_keeps_all _ _ _ _ _ delay_ok).
  apply (check_item_limits_keeps _ _ items_ok).
  apply (check_proxies_keeps _ _ proxies_ok).
  exact Hk.
Qed.

Lemma optional_have_defaults :
  Forall (fun entry => is_Some (default_of (fst entry))) _optional.
Proof.
  apply List.Forall_forall. intros entry Hin.
  assert (H : forallb (fun entry =>
                         match default_of (fst entry) with
                         | Some _ => true
                         | None => false
                         end) _optional = true)
    by (vm_compute; reflexivity).
  rewrite forallb_forall in H. specialize (H entry Hin).
  destruct (default_of (fst entry)); [eauto | discriminate].
Qed.

Lemma apply_defaults_again fs conf out :
  sanitize fs conf = Passed out -> apply_defaults out = out.
Proof.
  intros Hout. unfold apply_defaults. apply foldl_set_default_id.
  pose proof optional_have_defaults as Hd.
  rewrite List.Forall_forall in Hd. apply List.Forall_forall.
  intros entry Hin. apply (settings_stay fs conf out _ Hout).
  rewrite apply_defaults_lookup.
  destruct (conf !! fst entry); [eauto | exact (Hd entry Hin)].
Qed.

Lemma check_required_again fs conf out :
  sanitize fs conf = Passed out ->
  check_required _required out = Passed tt.
Proof.
  intros Hout. apply check_required_passes.
  destruct (sanitize_chain _ _ _ Hout) as [? ? ? ? ? ? ? Hreq].
  apply check_required_passes in Hreq.
  rewrite List.Forall_forall in Hreq. apply List.Forall_forall.
  intros name Hin. apply (settings_stay fs conf out _ Hout).
  rewrite apply_defaults_lookup.
  destruct (Hreq name Hin) as [v ->]. eauto.
Qed.

Lemma check_proxies_again fs conf out :
  sanitize fs conf = Passed out -> check_proxies out = Passed out.
Proof.
  intros Hout.
  destruct (proxies_shape fs conf out Hout) as (p & Hp & Hkind & _).
  unfold check_proxies, getattr. rewrite Hp. cbn [mbind checked_bind].
  destruct Hkind as [Hfalse | [members ->]].
  - rewrite Hfalse. reflexivity.
  - destruct (truthy (VSet members)); reflexivity.
Qed.

Lemma check_map_bounds_ext c c' :
  c' !! "MAP_START" = c !! "MAP_START" ->
  c' !! "MAP_END" = c !! "MAP_END" ->
  check_map_bounds c = Passed c -> check_map_bounds c' = Passed c'.
Proof.
  unfold check_map_bounds, getattr. intros -> ->.
  destruct (c !! "MAP_START") as [s|]; [|discriminate].
  cbn [mbind checked_bind].
  destruct (getitem s 0) as [s0|]; [|discriminate]. cbn [mbind checked_bind].
  destruct (c !! "MAP_END") as [e|]; [|discriminate].
  cbn [mbind checked_bind].
  destruct (getitem e 0) as [e0|]; [|discriminate]. cbn [mbind checked_bind].
  destruct (py_eq s0 e0); [discriminate|].
  destruct (getitem s 1) as [s1|]; [|discriminate]. cbn [mbind checked_bind].
  destruct (getitem e 1) as [e1|]; [|discriminate]. cbn [mbind checked_bind].
  destruct (py_eq s1 e1); [discriminate | reflexivity].
Qed.

Lemma check_map_bounds_again fs conf out :
  sanitize fs conf = Passed out -> check_map_bounds out = Passed out.
Proof.
  intros Hout. destruct (sanitize_chain _ _ _ Hout).
  apply (check_map_bounds_ext c1); [| |assumption].
  - back_over coroutines_ok. back_over forced_kill_ok.
    back_over directory_ok. back_over simulation_ok. back_over logins_ok.
    back_over delay_ok. back_over items_ok. reflexivity.
  - back_over coroutines_ok. back_over forced_kill_ok.
    back_over directory_ok. back_over simulation_ok. back_over logins_ok.
    back_over delay_ok. back_over items_ok. reflexivity.
Qed.

Lemma check_item_limits_again fs conf out :
  sanitize fs conf = Passed out -> check_item_limits out = Passed out.
Proof.
  intros Hout.
  assert (Hil : is_Some (out !! "ITEM_LIMITS")).
  { apply (settings_stay fs conf out _ Hout). rewrite apply_defaults_lookup.
    destruct (conf !! "ITEM_LIMITS"); [eauto | vm_compute; eauto]. }
  destruct Hil as [il Hil].
  unfold check_item_limits, getattr. rewrite Hil. cbn [mbind checked_bind].
  destruct (truthy il) eqn:Ht; [|reflexivity].
  destruct (limits_imply_spin fs conf out Hout il Hil Ht) as (sp & -> & Hsp).
  cbn [mbind checked_bind]. rewrite Hsp. reflexivity.
Qed.

Lemma at_least_again name floor fallback out v :
  out !! name = Some v -> py_lt v floor = Some false ->
  at_least name floor fallback out = Passed out.
Proof. intros Hv Hlt. unfold at_least. rewrite Hv, Hlt. reflexivity. Qed.

Lemma check_encounter_again fs conf out :
  sanitize fs conf = Passed out -> check_encounter out = Passed out.
Proof.
  intros Hout. unfold check_encounter, getattr.
  destruct (encounter_choices fs conf out Hout) as [-> | [-> | ->]]; reflexivity.
Qed.

Lemma set_directory_again fs conf out :
  sanitize fs conf = Passed out -> set_directory fs out = Passed out.
Proof.
  intros Hout.
  destruct (directory_kill_shape fs conf out Hout)
    as [(d & Hd & Hne & _) _].
  unfold set_directory, getattr. rewrite Hd. cbn [mbind checked_bind].
  destruct d; try reflexivity. congruence.
Qed.

Lemma set_forced_kill_again fs conf out :
  sanitize fs conf = Passed out -> set_forced_kill out = Passed out.
Proof.
  intros Hout.
  destruct (directory_kill_shape fs conf out Hout)
    as [_ (f & Hf & Hne & _)].
  unfold set_forced_kill, getattr. rewrite Hf. cbn [mbind checked_bind].
  destruct f as [|[|]| | | | | | | |]; try reflexivity. congruence.
Qed.

Lemma set_coroutines_limit_again conf out :
  set_coroutines_limit conf = Passed out ->
  set_coroutines_limit out = Passed out.
Proof.
  unfold set_coroutines_limit at 1. unfold getattr.
  destruct (conf !! "COROUTINES_LIMIT") as [l|] eqn:Hl; [|discriminate].
  cbn [mbind checked_bind]. destruct (truthy l) eqn:Ht.
  - intros [= <-]. unfold set_coroutines_limit, getattr.
    rewrite Hl. cbn [mbind checked_bind]. rewrite Ht. reflexivity.
  - destruct (conf !! "GRID") as [g|] eqn:Hg; [|discriminate].
    cbn [mbind checked_bind].
    destruct (getitem g 0) as [g0|] eqn:H0; [|discriminate].
    cbn [mbind checked_bind].
    destruct (getitem g 1) as [g1|] eqn:H1; [|discriminate].
    cbn [mbind checked_bind].
    destruct (py_mul g0 g1) as [p|] eqn:Hp; [|discriminate].
    cbn [mbind checked_bind]. intros [= <-].
    unfold set_coroutines_limit, getattr.
    rewrite lookup_insert_eq. cbn [mbind checked_bind].
    destruct (truthy p); [reflexivity|].
    rewrite lookup_insert_ne by discriminate. rewrite Hg.
    cbn [mbind checked_bind]. rewrite H0. cbn [mbind checked_bind].
    rewrite H1. cbn [mbind checked_bind]. rewrite Hp.
    cbn [mbind checked_bind]. rewrite insert_insert_eq. reflexivity.
Qed.

Lemma bind_passed {A B : Type} (a : A) (k : A -> checked B) :
  Passed a ≫= k = k a.
Proof. reflexivity. Qed.

(** The checks change nothing in a configuration that they have already
    checked: run again on their own result, they pass and return it as it
    is. *)
Theorem checks_are_idempotent fs conf out :
  sanitize fs conf = Passed out -> sanitize fs out = Passed out.
Proof.
  intros Hout.
  destruct (floors_hold fs conf out Hout)
    as ((d & Hd & Hdlt) & (l & Hl & Hllt) & (s & Hs & Hslt)).
  unfold sanitize.
  rewrite (check_required_again fs conf out Hout), bind_passed.
  rewrite (apply_defaults_again fs conf out Hout).
  rewrite (check_proxies_again fs conf out Hout), bind_passed.
  rewrite (check_map_bounds_again fs conf out Hout), bind_passed.
  rewrite (check_item_limits_again fs conf out Hout), bind_passed.
  rewrite (at_least_again "SCAN_DELAY" 10 (Passed (VInt 10)) out d Hd Hdlt),
    bind_passed.
  rewrite (at_least_again "SIMULTANEOUS_LOGINS" 1 (Passed (VInt 4)) out l
             Hl Hllt), bind_passed.
  rewrite (at_least_again "SIMULTANEOUS_SIMULATION" 1
             (getattr out "SIMULTANEOUS_LOGINS") out s Hs Hslt), bind_passed.
  rewrite (check_encounter_again fs conf out Hout), bind_passed.
  rewrite (set_directory_again fs conf out Hout), bind_passed.
  rewrite (set_forced_kill_again fs conf out Hout), bind_passed.
  destruct (sanitize_chain _ _ _ Hout).
  apply (set_coroutines_limit_again c9). assumption.
Qed.

(** *** The facts on concrete configurations *)

Lemma checked_config_passes (conf : gmap string value) :
  match sanitize true conf with Passed _ => true | Failed _ => false end = true ->
  sanitize true conf = Passed (checked_config conf).
Proof.
  unfold checked_config. destruct (sanitize true conf); [reflexivity|].
  discriminate.
Qed.

Lemma small_config_passes :
  sanitize true small_config = Passed (checked_config small_config).
Proof. apply checked_config_passes. vm_compute. reflexivity. Qed.

Lemma spinning_config_passes :
  sanitize true spinning_config = Passed (checked_config spinning_config).
Proof. apply checked_config_passes. vm_compute. reflexivity. Qed.

Lemma missing_required_setting_witness :
  sanitize true (delete "GRID" small_config)
  = Failed (Exn cAttributeError
              ("Please set " ++ dquote ++ "GRID" ++ dquote ++ " in config")
              None).
Proof.
  apply (proj1 (missing_required_setting true (delete "GRID" small_config))
           ["DB_ENGINE"] "GRID" ["MAP_START"; "MAP_END"]).
  - reflexivity.
  - repeat constructor. vm_compute. eauto.
  - vm_compute. reflexivity.
Defined.

Lemma defaults_fill_only_gaps_witness :
  checked_config small_config !! "MAP_WORKERS" = Some (VBool true)
  /\ checked_config small_config !! "GRID" = Some (VTuple [VInt 4; VInt 4]).
Proof.
  split.
  - rewrite (defaults_fill_only_gaps true small_config _ "MAP_WORKERS"
               small_config_passes).
    + vm_compute. reflexivity.
    + simpl. intuition discriminate.
  - rewrite (defaults_fill_only_gaps true small_config _ "GRID"
               small_config_passes).
    + vm_compute. reflexivity.
    + simpl. intuition discriminate.
Defined.

Lemma numeric_settings_reach_their_floor_witness :
  exists v, checked_config small_config !! "SCAN_DELAY" = Some v
            /\ py_lt v 10 = Some false.
Proof.
  exact (proj1 (numeric_settings_reach_their_floor true small_config _
                  small_config_passes)).
Defined.

Lemma numeric_settings_fall_back_witness :
  checked_config small_config !! "SCAN_DELAY" = Some (VInt 10)
  /\ checked_config small_config !! "SIMULTANEOUS_SIMULATION"
     = checked_config small_config !! "SIMULTANEOUS_LOGINS".
Proof.
  destruct (numeric_settings_fall_back true small_config _
              small_config_passes) as (Hd & _ & Hs & _).
  split.
  - apply Hd. intros u Hu. vm_compute in Hu. injection Hu as <-.
    reflexivity.
  - apply Hs. intros u Hu. vm_compute in Hu. discriminate Hu.
Defined.

Lemma number_below_floor_is_rejected_witness :
  exists e, sanitize true (<["SCAN_DELAY" := VInt 5]> small_config) = Failed e.
Proof.
  apply (number_below_floor_is_rejected true _ "SCAN_DELAY" 10 (VInt 5)).
  - left. reflexivity.
  - vm_compute. reflexivity.
  - reflexivity.
Defined.

Lemma proxies_become_a_set_witness :
  exists p, checked_config small_config !! "PROXIES" = Some p
            /\ p = VSet (distinct [VStr "a"; VStr "b"; VStr "a"]).
Proof.
  destruct (proxies_become_a_set true small_config _ small_config_passes)
    as (p & Hp & _ & _ & Hlist & _).
  exists p. split; [exact Hp|]. apply Hlist.
  - left. vm_compute. reflexivity.
  - discriminate.
Defined.

Lemma map_corners_differ_witness :
  exists map_start map_end start0 end0 start1 end1,
    small_config !! "MAP_START" = Some map_start
    /\ small_config !! "MAP_END" = Some map_end
    /\ checked_config small_config !! "MAP_START" = Some map_start
    /\ checked_config small_config !! "MAP_END" = Some map_end
    /\ getitem map_start 0 = Passed start0
    /\ getitem map_end 0 = Passed end0
    /\ getitem map_start 1 = Passed start1
    /\ getitem map_end 1 = Passed end1
    /\ py_eq start0 end0 = false
    /\ py_eq start1 end1 = false.
Proof.
  exact (map_corners_differ true small_config _ small_config_passes).
Defined.

Lemma item_limits_need_spinning_witness :
  exists spin,
    checked_config spinning_config !! "SPIN_POKESTOPS" = Some spin
    /\ truthy spin = true.
Proof.
  apply (item_limits_need_spinning true spinning_config _
           spinning_config_passes (VDict [(VInt 1, VInt 50)])).
  - vm_compute. reflexivity.
  - reflexivity.
Defined.

Lemma encounter_is_one_of_three_witness :
  checked_config small_config !! "ENCOUNTER" = Some VNone
  \/ checked_config small_config !! "ENCOUNTER" = Some (VStr "notifying")
  \/ checked_config small_config !! "ENCOUNTER" = Some (VStr "all").
Proof.
  exact (encounter_is_one_of_three true small_config _ small_config_passes).
Defined.

Lemma directory_and_forced_kill_are_resolved_witness :
  exists d, checked_config small_config !! "DIRECTORY" = Some d
            /\ d = VStr "..".
Proof.
  destruct (directory_and_forced_kill_are_resolved true small_config _
              small_config_passes) as [(d & Hd & _ & Hdef) _].
  exists d. split; [exact Hd|]. apply Hdef. left. vm_compute. reflexivity.
Defined.

Lemma fractional_grid_config_passes :
  sanitize true fractional_grid_config
  = Passed (checked_config fractional_grid_config).
Proof. apply checked_config_passes. vm_compute. reflexivity. Qed.

(** The product is Python's: two ints give their exact product, a float
    gives the rounded product of doubles. *)
Lemma coroutines_limit_defaults_to_grid_area_witness :
  checked_config small_config !! "COROUTINES_LIMIT" = Some (VInt 16)
  /\ checked_config fractional_grid_config !! "COROUTINES_LIMIT"
     = Some (VFloat 0.30000000000000004).
Proof.
  split.
  - destruct (coroutines_limit_defaults_to_grid_area true small_config _
                small_config_passes) as (limit & Hl & _ & Hgrid).
    destruct Hgrid as (grid & columns & rows & Hg & H0 & H1 & Hp).
    + intros u Hu. vm_compute in Hu. discriminate Hu.
    + vm_compute in Hg. injection Hg as <-.
      vm_compute in H0. injection H0 as <-.
      vm_compute in H1. injection H1 as <-.
      vm_compute in Hp. injection Hp as <-. exact Hl.
  - destruct (coroutines_limit_defaults_to_grid_area true
                fractional_grid_config _ fractional_grid_config_passes)
      as (limit & Hl & _ & Hgrid).
    destruct Hgrid as (grid & columns & rows & Hg & H0 & H1 & Hp).
    + intros u Hu. vm_compute in Hu. discriminate Hu.
    + vm_compute in Hg. injection Hg as <-.
      vm_compute in H0. injection H0 as <-.
      vm_compute in H1. injection H1 as <-.
      vm_compute in Hp. injection Hp as <-. exact Hl.
Defined.

(** An integer of the grid that is too large for a double makes the
    product, and with it the checks, end in [OverflowError]. *)
Lemma huge_grid_overflows :
  exists e, sanitize true huge_grid_config = Failed e
            /\ isinstance e "OverflowError" = true.
Proof. eexists. split; vm_compute; reflexivity. Qed.

Lemma checks_are_idempotent_witness :
  sanitize true (checked_config small_config)
  = Passed (checked_config small_config).
Proof.
  exact (checks_are_idempotent true small_config _ small_config_passes).
Defined.

End ConfigFacts.
